(** * Locator: resolution of contact-pair locations and region masks

    A shallow embedding of [Locator.py] (class [Locator]) and the
    properties of its label-resolution pass and of its mask queries.

    Python strings are modelled as [string]: sequences of 8-bit
    characters, read as the code points U+0000 .. U+00FF.  [str.strip],
    [str.lower] and [str.split] are written out for that range. *)

From Stdlib Require Import Ascii String.
From stdpp Require Import gmap strings list fin_maps.

Open Scope string_scope.
Open Scope list_scope.

(** ** Python string primitives *)

(** [str.isspace] on one character (code points below 256). *)
Definition isspace (c : ascii) : bool :=
  let n := nat_of_ascii c in
  (((9 <=? n) && (n <=? 13)) || ((28 <=? n) && (n <=? 32))
   || (n =? 133) || (n =? 160))%nat.

(** [str.lower] on one character (code points below 256). *)
Definition lower_char (c : ascii) : ascii :=
  let n := nat_of_ascii c in
  if (((65 <=? n) && (n <=? 90)) || ((192 <=? n) && (n <=? 214))
      || ((216 <=? n) && (n <=? 222)))%nat
  then ascii_of_nat (n + 32) else c.

Fixpoint lower (s : string) : string :=
  match s with
  | EmptyString => EmptyString
  | String c s' => String (lower_char c) (lower s')
  end.

Fixpoint lstrip (s : string) : string :=
  match s with
  | EmptyString => EmptyString
  | String c s' => if isspace c then lstrip s' else s
  end.

Fixpoint rstrip (s : string) : string :=
  match s with
  | EmptyString => EmptyString
  | String c s' =>
      match rstrip s' with
      | EmptyString => if isspace c then EmptyString else String c EmptyString
      | r => String c r
      end
  end.

(** [s.strip()] *)
Definition strip (s : string) : string := rstrip (lstrip s).

(** A string that does not start with white space. *)
Definition no_leading_space (s : string) : Prop :=
  match s with
  | EmptyString => True
  | String c _ => isspace c = false
  end.

(** [s.split(sep)] for a one-character separator. *)
Fixpoint split (sep : ascii) (s : string) : list string :=
  match s with
  | EmptyString => [EmptyString]
  | String c s' =>
      if Ascii.eqb c sep then EmptyString :: split sep s'
      else match split sep s' with
           | [] => [String c EmptyString]
           | w :: ws => String c w :: ws
           end
  end.

(** [x in l] for a list of strings. *)
Definition str_in (x : string) (l : list string) : bool :=
  existsb (String.eqb x) l.

(** ** Python values, exceptions, results *)

(** The values a table cell or a map entry can hold. *)
Inductive pyval : Type :=
| PyStr (s : string)
| PyNone
| PyNaN
| PyInt (z : Z).

(** [a == b] on cell values; a NaN equals nothing, itself included. *)
Definition py_eq (a b : pyval) : bool :=
  match a, b with
  | PyStr x, PyStr y => String.eqb x y
  | PyNone, PyNone => true
  | PyInt x, PyInt y => Z.eqb x y
  | _, _ => false
  end.

Inductive exn : Type :=
| AttributeError | IndexError | KeyError | LoadError.

Inductive result (A : Type) : Type :=
| Ok (a : A)
| Raise (e : exn).
Arguments Ok {A} a.
Arguments Raise {A} e.

(** ** The resolution pass: mutable [locations] and exceptions *)

(** Code of [__LoadLocations] reads and assigns the list [locations] of
    its enclosing scope and may raise.  A computation takes the list and
    gives a value or an exception together with the list as it then is:
    assignments made before an exception stay made. *)
Definition Loc (A : Type) : Type :=
  list (option string) -> result A * list (option string).

Definition ret {A : Type} (a : A) : Loc A := fun st => (Ok a, st).

Definition raise {A : Type} (e : exn) : Loc A := fun st => (Raise e, st).

Definition bind {A B : Type} (m : Loc A) (f : A -> Loc B) : Loc B :=
  fun st =>
    match m st with
    | (Ok a, st') => f a st'
    | (Raise e, st') => (Raise e, st')
    end.

Declare Scope loc_scope.
Delimit Scope loc_scope with loc.
Notation "'do' x <- m ; k" := (bind m (fun x => k))
  (at level 10, x name, m at level 100, k at level 200) : loc_scope.
Notation "m ;; k" := (bind m (fun _ => k))
  (at level 100, k at level 200, right associativity) : loc_scope.

(** A value or exception computed outside the list. *)
Definition lift {A : Type} (r : result A) : Loc A :=
  match r with
  | Ok a => ret a
  | Raise e => raise e
  end.

(** [locations[ri]] *)
Definition get_location (ri : nat) : Loc (option string) :=
  fun st =>
    match st !! ri with
    | Some v => (Ok v, st)
    | None => (Raise IndexError, st)
    end.

(** [locations[ri] = reg] *)
Definition set_location (ri : nat) (reg : string) : Loc unit :=
  fun st =>
    if decide (ri < length st) then (Ok tt, <[ri := Some reg]> st)
    else (Raise IndexError, st).

(** [try: m except: pass] *)
Definition try_pass (m : Loc unit) : Loc unit :=
  fun st => (Ok tt, snd (m st)).

(** [for x in l: body x] *)
Fixpoint for_each {A : Type} (l : list A) (body : A -> Loc unit) : Loc unit :=
  match l with
  | [] => ret tt
  | x :: l' => (body x ;; for_each l' body)%loc
  end.

(** [for ri in range(n): body ri] *)
Definition for_range (n : nat) (body : nat -> Loc unit) : Loc unit :=
  for_each (seq 0 n) body.

(** ** The data source *)

(** The pairs table: [len(pairs)] and its columns by name.  Nothing
    forces a column to have [df_len] entries. *)
Record DataFrame : Type := {
  df_len : nat;
  df_columns : gmap string (list pyval)
}.

(** The localization structure, read through
    [locjson.loc[k1][k2]] down to a map from contact name to region. *)
Record Localization : Type := {
  loc_rows : gmap string (gmap string (gmap string pyval))
}.

(** [reader.load('pairs')] and [reader.load('localization')]. *)
Record Reader : Type := {
  load_pairs : result DataFrame;
  load_localization : result Localization
}.

(** [m[k]] on a map. *)
Definition getitem {V : Type} (m : gmap string V) (k : string) : result V :=
  match m !! k with
  | Some v => Ok v
  | None => Raise KeyError
  end.

(** [k in m.keys()] *)
Definition has_key {V : Type} (m : gmap string V) (k : string) : bool :=
  match m !! k with
  | Some _ => true
  | None => false
  end.

(** [col[ri]] on a column. *)
Definition series_at (col : list pyval) (ri : nat) : result pyval :=
  match col !! ri with
  | Some v => Ok v
  | None => Raise KeyError
  end.

(** [spl[i]] on a list. *)
Definition item (spl : list string) (i : nat) : result string :=
  match spl !! i with
  | Some v => Ok v
  | None => Raise IndexError
  end.

(** [label.split('-')]; only a string has the method. *)
Definition label_split (label : pyval) : result (list string) :=
  match label with
  | PyStr l => Ok (split "-" l)
  | _ => Raise AttributeError
  end.

(** [pairs.label] *)
Definition attr_label (pairs : DataFrame) : result (list pyval) :=
  match df_columns pairs !! "label" with
  | Some col => Ok col
  | None => Raise AttributeError
  end.

(** [locjson.loc['contacts']['atlases.whole_brain']] *)
Definition whole_brain (locjson : Localization) : result (gmap string pyval) :=
  match getitem (loc_rows locjson) "contacts" with
  | Ok contacts => getitem contacts "atlases.whole_brain"
  | Raise e => Raise e
  end.

(** ** [Locator.__LoadLocations] *)

Definition sentinels : list string :=
  ["unknown"; "misc"; "None"; "nan"; EmptyString].

Definition SetIfValid (reg : pyval) (ri : nat) : Loc unit :=
  match reg with
  | PyStr reg =>
      let reg := strip reg in
      if str_in reg sentinels then ret tt
      else set_location ri reg
  | _ => ret tt
  end.

Definition UpdateLocations (pairs : DataFrame) (chan_cnt : nat)
    (regionlabel : string) : Loc unit :=
  match df_columns pairs !! regionlabel with
  | Some col =>
      for_range chan_cnt (fun ri =>
        do loc <- get_location ri;
        match loc with
        | Some _ => ret tt
        | None =>
            do reg <- lift (series_at col ri);
            SetIfValid reg ri
        end)%loc
  | None => ret tt
  end.

(** One turn of the loop of the [try] block, on a pair still absent. *)
Definition colocalize (whbr : gmap string pyval) (labels : list pyval)
    (ri : nat) : Loc unit :=
  (do label <- lift (series_at labels ri);
   do spl <- lift (label_split label);
   do spl0 <- lift (item spl 0);
   if has_key whbr spl0 then
     do spl1 <- lift (item spl 1);
     if has_key whbr spl1 then
       do r0 <- lift (getitem whbr spl0);
       do r1 <- lift (getitem whbr spl1);
       if py_eq r0 r1 then
         do reg <- lift (getitem whbr spl0);
         SetIfValid reg ri
       else ret tt
     else ret tt
   else ret tt)%loc.

(** The body of the [try] block. *)
Definition whole_brain_step (rd : Reader) (chan_cnt : nat) : Loc unit :=
  (do locjson <- lift (load_localization rd);
   do whbr <- lift (whole_brain locjson);
   do pairs <- lift (load_pairs rd);
   do labels <- lift (attr_label pairs);
   if negb (length labels =? chan_cnt)%nat then raise IndexError
   else
     for_range chan_cnt (fun ri =>
       do loc <- get_location ri;
       match loc with
       | Some _ => ret tt
       | None => colocalize whbr labels ri
       end))%loc.

(** The five sources in order, from [UpdateLocations('stein.region')]
    to [UpdateLocations('ind.region')]. *)
Definition resolve (rd : Reader) (pairs : DataFrame) (chan_cnt : nat) : Loc unit :=
  (UpdateLocations pairs chan_cnt "stein.region" ;;
   UpdateLocations pairs chan_cnt "das.region" ;;
   try_pass (whole_brain_step rd chan_cnt) ;;
   UpdateLocations pairs chan_cnt "mni.region" ;;
   UpdateLocations pairs chan_cnt "ind.region")%loc.

(** The closing comprehension: every stored string is stripped again. *)
Definition restrip (s : option string) : option string :=
  match s with
  | Some s => Some (strip s)
  | None => None
  end.

Definition LoadLocations (rd : Reader) : result (list (option string)) :=
  match load_pairs rd with
  | Raise e => Raise e
  | Ok pairs =>
      let chan_cnt := df_len pairs in
      let locations := replicate chan_cnt None in
      match resolve rd pairs chan_cnt locations with
      | (Ok _, locations) => Ok (map restrip locations)
      | (Raise e, _) => Raise e
      end
  end.

(** ** The class [Locator] *)

(** An alias written with its quote characters, as ['"dg"'] is. *)
Definition quoted (s : string) : string :=
  String (ascii_of_nat 34) (s ++ String (ascii_of_nat 34) EmptyString)%string.

Record Locator : Type := {
  reader : option Reader;
  hippocampus_regions : list string;
  mtl_regions : list string;
  ltc_regions : list string;
  temporal_regions : list string;
  pfc_regions : list string;
  cingulate_regions : list string;
  parietal_regions : list string;
  other_regions : list string;
  (** [self.__locations], unset when [reader is None] *)
  locations : option (list (option string))
}.

(** [Locator.__init__] *)
Definition init (rdr : option Reader) : result Locator :=
  let hippocampus :=
    ["CA1"; "CA2"; "CA3"; "CA4"; "Hippocampal"; "Hippocampus"; "Sub";
     "DG"; "ba35"; "ba35"; quoted "dg"; quoted "ca1"; quoted "sub";
     quoted "ba35"; quoted "ba35"] in
  let mtl :=
    (hippocampus ++
     ["prc"; "ec"; "phc"; "mtl wm"; "amy";
      "parahippocampal"; "entorhinal"; "temporalpole"; "amygdala";
      "ent entorhinal area"; "hippocampus"; "phg parahippocampal gyrus";
      "tmp temporal pole"; quoted "erc"; quoted "phc"; "erc"])%list in
  let ltc :=
    ["middle temporal gyrus"; "stg"; "mtg"; "itg";
     "inferior temporal gyrus"; "superior temporal gyrus"; "tc";
     "bankssts"; "middletemporal"; "inferiortemporal"; "superiortemporal";
     "itg inferior temporal gyrus"; "mtg middle temporal gyrus";
     "stg superior temporal gyrus"] in
  let temporal :=
    (mtl ++ ltc ++
     ["fusiform gyrus wm"; "fusiform"; "transversetemporal"])%list in
  let pfc :=
    ["caudal middle frontal cortex"; "dlpfc"; "precentral gyrus";
     "precentral gyrus"; "superior frontal gyrus";
     "mfg middle frontal gyrus";
     "trifg triangular part of the inferior frontal gyrus";
     "caudalmiddlefrontal"; "frontalpole"; "lateralorbitofrontal";
     "medialorbitofrontal"; "parsopercularis"; "parsorbitalis";
     "parstriangularis"; "rostralmiddlefrontal"; "superiorfrontal"] in
  let cingulate :=
    ["mcg"; "acg"; "pcg"; "caudalanteriorcingulate";
     "isthmuscingulate"; "posteriorcingulate";
     "rostralanteriorcingulate"] in
  let parietal :=
    ["supramarginal gyrus"; "supramarginal gyrus"; "inferiorparietal";
     "postcentral"; "precuneus"; "superiorparietal";
     "supramarginal"] in
  let other :=
    ["precentral gyrus"; "none"; "insula"; "precentral gyrus"; "nan";
     "misc"; "insula"; "precentral"; "paracentral";
     ("inf lat vent" ++ "cerebral white matter")%string;
     "lateral ventricle"] in
  let build locs :=
    {| reader := rdr;
       hippocampus_regions := hippocampus;
       mtl_regions := mtl;
       ltc_regions := ltc;
       temporal_regions := temporal;
       pfc_regions := pfc;
       cingulate_regions := cingulate;
       parietal_regions := parietal;
       other_regions := other;
       locations := locs |} in
  match rdr with
  | Some rd =>
      match LoadLocations rd with
      | Ok locs => Ok (build (Some locs))
      | Raise e => Raise e
      end
  | None => Ok (build None)
  end.

(** [self.__locations]; the attribute may not be there. *)
Definition get_locations (self : Locator) : result (list (option string)) :=
  match locations self with
  | Some locs => Ok locs
  | None => Raise AttributeError
  end.

(** The argument [regions] of the queries: one string or a list. *)
Inductive regions_arg : Type :=
| OneStr (s : string)
| StrList (l : list string).

(** [if isinstance(regions, str): regions = [regions]] *)
Definition as_list (regions : regions_arg) : list string :=
  match regions with
  | OneStr s => [s]
  | StrList l => l
  end.

Definition All (self : Locator) : result (list (option string)) :=
  match get_locations self with
  | Ok locs => Ok (map (fun s => s) locs)
  | Raise e => Raise e
  end.

Definition Matching (self : Locator) (regions : regions_arg) : result (list bool) :=
  let regions := as_list regions in
  let valid := map (fun s => strip (lower s)) regions in
  match get_locations self with
  | Ok locs =>
      Ok (map (fun s => match s with
                        | Some s => str_in (strip (lower s)) valid
                        | None => false
                        end) locs)
  | Raise e => Raise e
  end.

Definition Regions (self : Locator) (regions : option regions_arg) : result (list bool) :=
  match regions with
  | None =>
      match get_locations self with
      | Ok locs => Ok (map (fun _ => true) locs)
      | Raise e => Raise e
      end
  | Some regions =>
      let regions := as_list regions in
      let bothsides :=
        (regions ++ map (append "Left ") regions
                 ++ map (append "Right ") regions)%list in
      Matching self (StrList bothsides)
  end.

Definition LeftRegions (self : Locator) (regions : regions_arg) : result (list bool) :=
  let regions := as_list regions in
  Matching self (StrList (map (append "Left ") regions)).

Definition RightRegions (self : Locator) (regions : regions_arg) : result (list bool) :=
  let regions := as_list regions in
  Matching self (StrList (map (append "Right ") regions)).

Definition Hippocampus (self : Locator) : result (list bool) :=
  Regions self (Some (StrList (hippocampus_regions self))).
Definition LeftHippocampus (self : Locator) : result (list bool) :=
  LeftRegions self (StrList (hippocampus_regions self)).
Definition RightHippocampus (self : Locator) : result (list bool) :=
  RightRegions self (StrList (hippocampus_regions self)).

Definition MTL (self : Locator) : result (list bool) :=
  Regions self (Some (StrList (mtl_regions self))).
Definition LeftMTL (self : Locator) : result (list bool) :=
  LeftRegions self (StrList (mtl_regions self)).
Definition RightMTL (self : Locator) : result (list bool) :=
  RightRegions self (StrList (mtl_regions self)).

Definition LTC (self : Locator) : result (list bool) :=
  Regions self (Some (StrList (ltc_regions self))).
Definition LeftLTC (self : Locator) : result (list bool) :=
  LeftRegions self (StrList (ltc_regions self)).
Definition RightLTC (self : Locator) : result (list bool) :=
  RightRegions self (StrList (ltc_regions self)).

Definition Temporal (self : Locator) : result (list bool) :=
  Regions self (Some (StrList (temporal_regions self))).
Definition LeftTemporal (self : Locator) : result (list bool) :=
  LeftRegions self (StrList (temporal_regions self)).
Definition RightTemporal (self : Locator) : result (list bool) :=
  RightRegions self (StrList (temporal_regions self)).

Definition PFC (self : Locator) : result (list bool) :=
  Regions self (Some (StrList (pfc_regions self))).
Definition LeftPFC (self : Locator) : result (list bool) :=
  LeftRegions self (StrList (pfc_regions self)).
Definition RightPFC (self : Locator) : result (list bool) :=
  RightRegions self (StrList (pfc_regions self)).

Definition Cingulate (self : Locator) : result (list bool) :=
  Regions self (Some (StrList (cingulate_regions self))).
Definition LeftCingulate (self : Locator) : result (list bool) :=
  LeftRegions self (StrList (cingulate_regions self)).
Definition RightCingulate (self : Locator) : result (list bool) :=
  RightRegions self (StrList (cingulate_regions self)).

Definition Parietal (self : Locator) : result (list bool) :=
  Regions self (Some (StrList (parietal_regions self))).
Definition LeftParietal (self : Locator) : result (list bool) :=
  LeftRegions self (StrList (parietal_regions self)).
Definition RightParietal (self : Locator) : result (list bool) :=
  RightRegions self (StrList (parietal_regions self)).

(** ** Sample data sources *)

Definition column (name : string) (cells : list pyval) : string * list pyval :=
  (name, cells).

Definition table (n : nat) (cols : list (string * list pyval)) : DataFrame :=
  {| df_len := n; df_columns := list_to_map cols |}.

Definition atlas (whbr : list (string * pyval)) : Localization :=
  {| loc_rows :=
       {[ "contacts" := {[ "atlases.whole_brain" := list_to_map whbr ]} ]} |}.

(** Two pairs, the first named by [stein.region], the second by
    [das.region]; no localization. *)
Definition rd_two : Reader :=
  {| load_pairs :=
       Ok (table 2 [column "label" [PyStr "LA1-LA2"; PyStr "LB1-LB2"];
                    column "stein.region" [PyStr "CA1"; PyNone];
                    column "das.region" [PyStr "prc"; PyStr " insula "]]);
     load_localization := Raise LoadError |}.

(** Two pairs with no region column; the contacts of the second share
    the region [X] in the atlas, those of the first are not in it. *)
Definition rd_coloc : Reader :=
  {| load_pairs :=
       Ok (table 2 [column "label" [PyStr "B1-B2"; PyStr "A1-A2"]]);
     load_localization :=
       Ok (atlas [("A1", PyStr "X"); ("A2", PyStr "X")]) |}.

(** Two pairs over the same atlas; the first label has no second part. *)
Definition rd_bad_first : Reader :=
  {| load_pairs :=
       Ok (table 2 [column "label" [PyStr "A1"; PyStr "A1-A2"]]);
     load_localization :=
       Ok (atlas [("A1", PyStr "X"); ("A2", PyStr "X")]) |}.


(** The resolver built over a sample reader; construction succeeds for
    each of the samples. *)
Definition built (rd : Reader) : Locator :=
  match init (Some rd) with
  | Ok self => self
  | Raise _ =>
      {| reader := Some rd; hippocampus_regions := []; mtl_regions := [];
         ltc_regions := []; temporal_regions := []; pfc_regions := [];
         cingulate_regions := []; parietal_regions := []; other_regions := [];
         locations := None |}
  end.

(** Locations in the three forms of one alias, and one absent. *)
Definition rd_sides : Reader :=
  {| load_pairs :=
       Ok (table 5 [column "label" [PyStr "A1-A2"; PyStr "A2-A3"; PyStr "A3-A4";
                                    PyStr "A4-A5"; PyStr "A5-A6"];
                    column "ind.region"
                      [PyStr "Left Hippocampus"; PyStr "Hippocampus";
                       PyStr "Right Hippocampus"; PyNaN;
                       PyStr " LEFT hippocampus"]]);
     load_localization := Raise LoadError |}.

(** ** Vocabulary of the statements *)

(** What [SetIfValid] stores for a candidate, if anything. *)
Definition accepted (reg : pyval) : option string :=
  match reg with
  | PyStr s => if str_in (strip s) sentinels then None else Some (strip s)
  | _ => None
  end.

(** The value a column offers for a pair: the accepted cell of row [i]
    of column [c], nothing when the column or the row is not there. *)
Definition candidate (pairs : DataFrame) (c : string) (i : nat) : option string :=
  match df_columns pairs !! c with
  | Some col =>
      match col !! i with
      | Some v => accepted v
      | None => None
      end
  | None => None
  end.

(** What one turn of the loop of the [try] block does for a label:
    the region it stores, nothing, or the exception it raises. *)
Definition coloc_region (whbr : gmap string pyval) (label : pyval)
    : result (option string) :=
  match label with
  | PyStr l =>
      match split "-" l with
      | a :: rest =>
          match whbr !! a with
          | None => Ok None
          | Some r0 =>
              match rest with
              | [] => Raise IndexError
              | b :: _ =>
                  match whbr !! b with
                  | None => Ok None
                  | Some r1 => if py_eq r0 r1 then Ok (accepted r0) else Ok None
                  end
              end
          end
      | [] => Raise IndexError
      end
  | _ => Raise AttributeError
  end.

(** What the [try] block needs before its loop starts: the whole-brain
    map and a label column of the right length. *)
Definition step_inputs (rd : Reader) (chan_cnt : nat)
    : result (gmap string pyval * list pyval) :=
  match load_localization rd with
  | Raise e => Raise e
  | Ok locjson =>
      match whole_brain locjson with
      | Raise e => Raise e
      | Ok whbr =>
          match load_pairs rd with
          | Raise e => Raise e
          | Ok pairs =>
              match attr_label pairs with
              | Raise e => Raise e
              | Ok labels =>
                  if (length labels =? chan_cnt)%nat then Ok (whbr, labels)
                  else Raise IndexError
              end
          end
      end
  end.

(** What a turn of [UpdateLocations] decides for row [ri] of a column. *)
Definition update_decision (col : list pyval) (ri : nat)
    : result (option string) :=
  match col !! ri with
  | Some v => Ok (accepted v)
  | None => Raise KeyError
  end.

(** What a turn of the [try] block decides for pair [ri]. *)
Definition coloc_decision (whbr : gmap string pyval) (labels : list pyval)
    (ri : nat) : result (option string) :=
  match labels !! ri with
  | Some label => coloc_region whbr label
  | None => Raise KeyError
  end.

(** The effect of one turn on the list, from what the turn decides. *)
Definition apply_turn (ri : nat) (d : result (option string))
    : Loc unit :=
  fun st =>
    match d with
    | Ok (Some r) => (Ok tt, <[ri := Some r]> st)
    | Ok None => (Ok tt, st)
    | Raise e => (Raise e, st)
    end.

(** The region a decision stores, if any. *)
Definition stored (d : result (option string)) : option string :=
  match d with
  | Ok (Some r) => Some r
  | _ => None
  end.

(** The shape shared by the two loops: a pair already set is skipped. *)
Definition skip_set (rest : nat -> Loc unit) (ri : nat) : Loc unit :=
  (do loc <- get_location ri;
   match loc with
   | Some _ => ret tt
   | None => rest ri
   end)%loc.

(** An entry after a source has passed: kept if set, else the offer. *)
Definition offer (o : option string) (entry : option (option string))
    : option (option string) :=
  match entry with
  | Some None => Some o
  | e => e
  end.

(** [st'] has the entries [st] had set, and the same length. *)
Definition keeps (st st' : list (option string)) : Prop :=
  length st' = length st /\
  forall i v, st !! i = Some (Some v) -> st' !! i = Some (Some v).

(** Every stored region is stripped and is no sentinel. *)
Definition clean (st : list (option string)) : Prop :=
  forall i v, st !! i = Some (Some v) ->
    strip v = v /\ str_in v sentinels = false.

(** [mask[i]] is [True] for the mask a query returned. *)
Definition holds_at (r : result (list bool)) (i : nat) : Prop :=
  match r with
  | Ok m => m !! i = Some true
  | Raise _ => False
  end.

(** [s.lower().strip()] *)
Definition norm (s : string) : string := strip (lower s).

(** A location matches a list of aliases: it is a string whose
    normal form is the normal form of one of them. *)
Definition matches (aliases : list string) (loc : option string) : bool :=
  match loc with
  | Some s => str_in (norm s) (map norm aliases)
  | None => false
  end.

(** A query answered with [n] booleans, the one at [i] telling whether
    the location of pair [i] matches the aliases. *)
Definition mask_is (n : nat) (locs : list (option string))
    (aliases : list string) (r : result (list bool)) : Prop :=
  exists m, r = Ok m /\ length m = n /\
    forall i, m !! i = matches aliases <$> locs !! i.

(** The named accessors of the class. *)
Definition accessors : list (Locator -> result (list bool)) :=
  [Hippocampus; LeftHippocampus; RightHippocampus;
   MTL; LeftMTL; RightMTL;
   LTC; LeftLTC; RightLTC;
   Temporal; LeftTemporal; RightTemporal;
   PFC; LeftPFC; RightPFC;
   Cingulate; LeftCingulate; RightCingulate;
   Parietal; LeftParietal; RightParietal].

(** Every column a source reads has a cell for each of the [df_len] rows. *)
Definition rectangular (pairs : DataFrame) : Prop :=
  forall c col, df_columns pairs !! c = Some col -> df_len pairs <= length col.

(** ** Vocabulary of the further properties *)

(** The first value there is in a list of offers. *)
Fixpoint first_some (offers : list (option string)) : option string :=
  match offers with
  | [] => None
  | Some v :: _ => Some v
  | None :: rest => first_some rest
  end.

(** The columns [UpdateLocations] is called on. *)
Definition region_columns : list string :=
  ["stein.region"; "das.region"; "mni.region"; "ind.region"].

(** Each region column that is there has a cell for every row. *)
Definition covered (pairs : DataFrame) : Prop :=
  Forall (fun c => match df_columns pairs !! c with
                   | Some col => df_len pairs <= length col
                   | None => True
                   end) region_columns.

(** The aliases [Regions] hands to [Matching]. *)
Definition bothsides (regions : list string) : list string :=
  regions ++ map (append "Left ") regions ++ map (append "Right ") regions.

(** The named accessors, each with the aliases it hands to [Matching]. *)
Definition accessor_aliases
    : list ((Locator -> result (list bool)) * (Locator -> list string)) :=
  let plain (regions : Locator -> list string) :=
    fun self => bothsides (regions self) in
  let left (regions : Locator -> list string) :=
    fun self => map (append "Left ") (regions self) in
  let right (regions : Locator -> list string) :=
    fun self => map (append "Right ") (regions self) in
  [(Hippocampus, plain hippocampus_regions);
   (LeftHippocampus, left hippocampus_regions);
   (RightHippocampus, right hippocampus_regions);
   (MTL, plain mtl_regions);
   (LeftMTL, left mtl_regions);
   (RightMTL, right mtl_regions);
   (LTC, plain ltc_regions);
   (LeftLTC, left ltc_regions);
   (RightLTC, right ltc_regions);
   (Temporal, plain temporal_regions);
   (LeftTemporal, left temporal_regions);
   (RightTemporal, right temporal_regions);
   (PFC, plain pfc_regions);
   (LeftPFC, left pfc_regions);
   (RightPFC, right pfc_regions);
   (Cingulate, plain cingulate_regions);
   (LeftCingulate, left cingulate_regions);
   (RightCingulate, right cingulate_regions);
   (Parietal, plain parietal_regions);
   (LeftParietal, left parietal_regions);
   (RightParietal, right parietal_regions)].

(** No alias of [l1] has the normal form of an alias of [l2]. *)
Definition disjoint_aliases (l1 l2 : list string) : bool :=
  let forms2 := map norm l2 in
  forallb (fun x => negb (str_in x forms2)) (map norm l1).

(** The five regions the class recommends together. *)
Definition five_regions : list (Locator -> result (list bool)) :=
  [MTL; LTC; PFC; Cingulate; Parietal].

(** The resolver built with no reader. *)
Definition taxonomy_only : Locator :=
  match init None with
  | Ok self => self
  | Raise _ => built rd_two
  end.

(** A reader whose pairs cannot be loaded. *)
Definition rd_missing : Reader :=
  {| load_pairs := Raise LoadError;
     load_localization := Ok (atlas [("A1", PyStr "X")]) |}.

(** Four pairs, each resolved by another source; the atlas names the
    contacts of the second and the third, which differ for the third. *)
Definition rd_chain : Reader :=
  {| load_pairs :=
       Ok (table 4 [column "label" [PyStr "A1-A2"; PyStr "B1-B2";
                                    PyStr "B2-C1"; PyStr "D1-D2"];
                    column "stein.region" [PyStr "CA1"; PyStr "unknown";
                                           PyNaN; PyNone];
                    column "mni.region" [PyStr "m0"; PyStr "m1";
                                         PyStr " m2 "; PyStr "nan"];
                    column "ind.region" [PyStr "i0"; PyStr "i1";
                                         PyStr "i2"; PyStr "i3"]]);
     load_localization :=
       Ok (atlas [("B1", PyStr "Y"); ("B2", PyStr "Y"); ("C1", PyStr "Z")]) |}.

(** ** String lemmas *)

Section StringFacts.

Lemma str_in_In (x : string) (l : list string) :
  str_in x l = true <-> In x l.
Proof.
  unfold str_in. rewrite existsb_exists. split.
  - intros [y [Hy Heq]]. apply String.eqb_eq in Heq. now subst.
  - intros H. exists x. split; [exact H | apply String.eqb_refl].
Qed.

Lemma str_in_false (x : string) (l : list string) :
  str_in x l = false <-> ~ In x l.
Proof.
  rewrite <- str_in_In. destruct (str_in x l); split; congruence.
Qed.

Lemma rstrip_idem (s : string) : rstrip (rstrip s) = rstrip s.
Proof.
  induction s as [|c s IH]; [reflexivity|].
  simpl. destruct (rstrip s) as [|d r] eqn:E.
  - destruct (isspace c) eqn:Hc; simpl; [reflexivity|].
    now rewrite Hc.
  - simpl in *. now rewrite IH.
Qed.

Lemma lstrip_no_leading_space (s : string) : no_leading_space (lstrip s).
Proof.
  induction s as [|c s IH]; simpl; [exact I|].
  destruct (isspace c) eqn:Hc; [exact IH | exact Hc].
Qed.

Lemma lstrip_fixed (s : string) : no_leading_space s -> lstrip s = s.
Proof. destruct s as [|c s]; simpl; [reflexivity|]. now intros ->. Qed.

Lemma rstrip_no_leading_space (s : string) :
  no_leading_space s -> no_leading_space (rstrip s).
Proof.
  destruct s as [|c s]; simpl; [exact id|].
  intros Hc. destruct (rstrip s); [now rewrite Hc | exact Hc].
Qed.

Lemma strip_idem (s : string) : strip (strip s) = strip s.
Proof.
  unfold strip.
  rewrite (lstrip_fixed (rstrip (lstrip s))).
  - apply rstrip_idem.
  - apply rstrip_no_leading_space, lstrip_no_leading_space.
Qed.

Lemma split_nonempty (sep : ascii) (s : string) : split sep s <> [].
Proof.
  destruct s as [|c s]; simpl; [discriminate|].
  destruct (Ascii.eqb c sep); [discriminate|].
  destruct (split sep s); discriminate.
Qed.

End StringFacts.

Example strip_ex : strip "  Left CA1 	" = "Left CA1".
Proof. reflexivity. Qed.

Example lower_ex : lower "Left CA1" = "left ca1".
Proof. reflexivity. Qed.

Example split_ex : split "-" "LA1-LA2" = ["LA1"; "LA2"].
Proof. reflexivity. Qed.

Example split_ex1 : split "-" "LA1" = ["LA1"].
Proof. reflexivity. Qed.

Example split_ex3 : split "-" "A-B-" = ["A"; "B"; EmptyString].
Proof. reflexivity. Qed.


(** ** The state: entries kept, entries clean *)

Section Keeps.

Lemma keeps_refl (st : list (option string)) : keeps st st.
Proof. split; [reflexivity | auto]. Qed.

Lemma keeps_trans (st1 st2 st3 : list (option string)) :
  keeps st1 st2 -> keeps st2 st3 -> keeps st1 st3.
Proof.
  intros [L12 K12] [L23 K23]. split; [congruence|].
  intros i v H. apply K23, K12, H.
Qed.

Lemma keeps_insert (st : list (option string)) (ri : nat) (r : string) :
  st !! ri = Some None -> keeps st (<[ri := Some r]> st).
Proof.
  intros Hri. split; [apply length_insert|].
  intros i v Hi. destruct (decide (ri = i)) as [->|Hne].
  - congruence.
  - now rewrite list_lookup_insert_ne.
Qed.

(** An entry absent afterwards was absent before. *)
Lemma keeps_absent (st st' : list (option string)) (i : nat) :
  keeps st st' -> st' !! i = Some None -> st !! i = Some None.
Proof.
  intros [L K] Hi.
  destruct (st !! i) as [[v|]|] eqn:E.
  - rewrite (K i v E) in Hi. discriminate.
  - reflexivity.
  - apply lookup_ge_None in E. apply lookup_lt_Some in Hi. lia.
Qed.

Lemma clean_replicate (n : nat) : clean (replicate n None).
Proof.
  intros i v H. apply lookup_replicate in H. destruct H; discriminate.
Qed.

Lemma clean_insert (st : list (option string)) (ri : nat) (r : string) :
  clean st -> strip r = r -> str_in r sentinels = false ->
  clean (<[ri := Some r]> st).
Proof.
  intros Hc Hs Hv i v Hi. destruct (decide (ri = i)) as [->|Hne].
  - destruct (decide (i < length st)) as [Hlt|Hge].
    + rewrite list_lookup_insert_eq in Hi by exact Hlt.
      injection Hi as <-. now split.
    + rewrite list_insert_ge in Hi by lia. eapply Hc, Hi.
  - rewrite list_lookup_insert_ne in Hi by exact Hne. eapply Hc, Hi.
Qed.

Lemma accepted_clean (reg : pyval) (r : string) :
  accepted reg = Some r -> strip r = r /\ str_in r sentinels = false.
Proof.
  destruct reg as [s| | |z]; unfold accepted; try discriminate.
  destruct (str_in (strip s) sentinels) eqn:E; [discriminate|].
  intros [= <-]. split; [apply strip_idem | exact E].
Qed.

End Keeps.

(** ** Running the monad *)

Section Run.

Context {A B : Type}.

Lemma bind_ok (m : Loc A) (f : A -> Loc B) (st st' : list (option string)) (a : A) :
  m st = (Ok a, st') -> bind m f st = f a st'.
Proof. intros H. unfold bind. now rewrite H. Qed.

Lemma bind_raise (m : Loc A) (f : A -> Loc B) (st st' : list (option string)) (e : exn) :
  m st = (Raise e, st') -> bind m f st = (Raise e, st').
Proof. intros H. unfold bind. now rewrite H. Qed.

Lemma bind_lift (r : result A) (f : A -> Loc B) (st : list (option string)) :
  bind (lift r) f st =
  match r with
  | Ok a => f a st
  | Raise e => (Raise e, st)
  end.
Proof. destruct r; reflexivity. Qed.

End Run.

Lemma for_each_app {A : Type} (body : A -> Loc unit) (l1 l2 : list A)
    (st : list (option string)) :
  for_each (l1 ++ l2) body st =
  bind (for_each l1 body) (fun _ => for_each l2 body) st.
Proof.
  revert st. induction l1 as [|x l1 IH]; intros st; [reflexivity|].
  simpl. unfold bind.
  destruct (body x st) as [[[]|e] st1]; [|reflexivity].
  rewrite IH. reflexivity.
Qed.

Lemma SetIfValid_run (reg : pyval) (ri : nat) (st : list (option string)) :
  ri < length st ->
  SetIfValid reg ri st = apply_turn ri (Ok (accepted reg)) st.
Proof.
  intros Hlt. destruct reg as [s| | |z]; try reflexivity.
  unfold SetIfValid, apply_turn, accepted.
  destruct (str_in (strip s) sentinels); [reflexivity|].
  unfold set_location. now rewrite decide_True by exact Hlt.
Qed.

(** ** The loop over the pairs

    Both loops of [__LoadLocations] skip the pairs already set and, on a
    pair still absent, run a turn that stores a region, stores nothing
    or raises, without touching another pair. *)

Section Loop.

Variable rest : nat -> Loc unit.
Variable decision : nat -> result (option string).

Hypothesis rest_run : forall ri st,
  st !! ri = Some None -> rest ri st = apply_turn ri (decision ri) st.

Hypothesis decision_clean : forall ri r,
  decision ri = Ok (Some r) -> strip r = r /\ str_in r sentinels = false.

Lemma skip_set_run (ri : nat) (st : list (option string)) :
  skip_set rest ri st =
  match st !! ri with
  | Some (Some _) => (Ok tt, st)
  | Some None => apply_turn ri (decision ri) st
  | None => (Raise IndexError, st)
  end.
Proof.
  unfold skip_set, bind, get_location.
  destruct (st !! ri) as [[v|]|] eqn:E; try reflexivity.
  now apply rest_run.
Qed.

Lemma offer_idem (o : option string) (e : option (option string)) :
  offer o (offer o e) = offer o e.
Proof. destruct e as [[v|]|]; destruct o; reflexivity. Qed.

Lemma turn_keeps (ri : nat) (st : list (option string)) :
  keeps st (snd (skip_set rest ri st)).
Proof.
  rewrite skip_set_run.
  destruct (st !! ri) as [[v|]|] eqn:E; simpl; try apply keeps_refl.
  destruct (decision ri) as [[r|]|e]; simpl; try apply keeps_refl.
  now apply keeps_insert.
Qed.

Lemma turn_clean (ri : nat) (st : list (option string)) :
  clean st -> clean (snd (skip_set rest ri st)).
Proof.
  intros Hc. rewrite skip_set_run.
  destruct (st !! ri) as [[v|]|] eqn:E; simpl; try exact Hc.
  destruct (decision ri) as [[r|]|e] eqn:D; simpl; try exact Hc.
  destruct (decision_clean ri r D) as [Hs Hv].
  now apply clean_insert.
Qed.

Lemma turn_lookup (ri : nat) (st st' : list (option string)) :
  skip_set rest ri st = (Ok tt, st') ->
  forall i, st' !! i =
    if decide (i = ri) then offer (stored (decision ri)) (st !! i)
    else st !! i.
Proof.
  rewrite skip_set_run. intros H i.
  destruct (st !! ri) as [[v|]|] eqn:E.
  - injection H as <-. case_decide; [subst; now rewrite E | reflexivity].
  - unfold apply_turn in H.
    destruct (decision ri) as [[r|]|e]; simpl.
    + injection H as <-. case_decide as Hi.
      * subst i. rewrite E. simpl. apply list_lookup_insert_eq.
        now apply lookup_lt_Some in E.
      * now rewrite list_lookup_insert_ne by congruence.
    + injection H as <-. case_decide; [subst; now rewrite E | reflexivity].
    + discriminate.
  - discriminate.
Qed.

Lemma loop_keeps (l : list nat) (st : list (option string)) :
  keeps st (snd (for_each l (skip_set rest) st)).
Proof.
  revert st. induction l as [|x l IH]; intros st; [apply keeps_refl|].
  simpl. unfold bind.
  pose proof (turn_keeps x st) as Hx.
  destruct (skip_set rest x st) as [[[]|e] st1]; simpl in *.
  - eapply keeps_trans; [exact Hx | apply IH].
  - exact Hx.
Qed.

Lemma loop_clean (l : list nat) (st : list (option string)) :
  clean st -> clean (snd (for_each l (skip_set rest) st)).
Proof.
  revert st. induction l as [|x l IH]; intros st Hc; [exact Hc|].
  simpl. unfold bind.
  pose proof (turn_clean x st Hc) as Hx.
  destruct (skip_set rest x st) as [[[]|e] st1]; simpl in *.
  - now apply IH.
  - exact Hx.
Qed.

(** A loop that ends without exception has offered its decision to
    every pair it went through. *)
Lemma loop_lookup (l : list nat) (st st' : list (option string)) :
  for_each l (skip_set rest) st = (Ok tt, st') ->
  forall i, st' !! i =
    if decide (i ∈ l) then offer (stored (decision i)) (st !! i)
    else st !! i.
Proof.
  revert st. induction l as [|x l IH]; intros st H i.
  - injection H as <-. rewrite decide_False; [reflexivity|].
    apply not_elem_of_nil.
  - simpl in H. unfold bind in H.
    destruct (skip_set rest x st) as [[[]|e] st1] eqn:Hx; [|discriminate].
    rewrite (IH st1 H i), (turn_lookup x st st1 Hx i).
    destruct (decide (i = x)) as [->|Hne].
    + rewrite (decide_True (P := x ∈ x :: l)) by apply list_elem_of_here.
      case_decide; [apply offer_idem | reflexivity].
    + destruct (decide (i ∈ l)) as [Hin|Hnin].
      * rewrite decide_True; [reflexivity|]. now apply list_elem_of_further.
      * rewrite decide_False; [reflexivity|].
        intros Hc. apply elem_of_cons in Hc. tauto.
Qed.

(** The loop ends without exception when no pair it would treat has
    a raising turn. *)
Lemma loop_total (l : list nat) (st : list (option string)) :
  (forall j, j ∈ l -> j < length st) ->
  (forall j, j ∈ l -> st !! j = Some None -> exists d, decision j = Ok d) ->
  exists st', for_each l (skip_set rest) st = (Ok tt, st').
Proof.
  revert st. induction l as [|x l IH]; intros st Hlen Hok.
  - exists st. reflexivity.
  - simpl. unfold bind.
    pose proof (turn_keeps x st) as Hk.
    assert (Hrun : exists st1, skip_set rest x st = (Ok tt, st1)).
    { rewrite skip_set_run.
      destruct (st !! x) as [[v|]|] eqn:E.
      - eauto.
      - destruct (Hok x (list_elem_of_here _ _) E) as [d Hd].
        rewrite Hd. destruct d; simpl; eauto.
      - apply lookup_ge_None in E.
        specialize (Hlen x (list_elem_of_here _ _)). lia. }
    destruct Hrun as [st1 Hst1]. rewrite Hst1 in Hk |- *. simpl in Hk.
    apply IH.
    + intros j Hj. destruct Hk as [-> _]. now apply Hlen, list_elem_of_further.
    + intros j Hj Hnone. apply Hok; [now apply list_elem_of_further|].
      eapply keeps_absent; eassumption.
Qed.


(** A loop whose turns before [x] raise nothing reaches [x]; if [x]
    is absent then and its turn stores [r], the loop leaves [r] there,
    whatever the later turns do. *)
Lemma loop_reaches (l1 l2 : list nat) (x : nat) (r : string)
    (st : list (option string)) :
  (forall j, j ∈ l1 -> j < length st) ->
  (forall j, j ∈ l1 -> st !! j = Some None -> exists d, decision j = Ok d) ->
  x ∉ l1 ->
  st !! x = Some None ->
  decision x = Ok (Some r) ->
  snd (for_each (l1 ++ x :: l2) (skip_set rest) st) !! x = Some (Some r).
Proof.
  intros Hlen Hok Hx Hnone Hdec.
  destruct (loop_total l1 st Hlen Hok) as [st1 H1].
  rewrite for_each_app, (bind_ok _ _ _ _ _ H1).
  pose proof (loop_lookup l1 st st1 H1 x) as Hst1.
  rewrite decide_False in Hst1 by exact Hx. rewrite Hnone in Hst1.
  simpl. unfold bind. rewrite skip_set_run, Hst1, Hdec. simpl.
  apply loop_keeps, list_lookup_insert_eq.
  now apply lookup_lt_Some in Hst1.
Qed.

End Loop.

(** ** [UpdateLocations] *)

Section UpdateLocationsFacts.

Variable pairs : DataFrame.
Variable chan_cnt : nat.
Variable regionlabel : string.

Lemma update_rest_run (col : list pyval) (ri : nat) (st : list (option string)) :
  st !! ri = Some None ->
  bind (lift (series_at col ri)) (fun reg => SetIfValid reg ri) st =
  apply_turn ri (update_decision col ri) st.
Proof.
  intros Hri. rewrite bind_lift. unfold series_at, update_decision.
  destruct (col !! ri) as [v|]; [|reflexivity].
  apply SetIfValid_run. now apply lookup_lt_Some in Hri.
Qed.

Lemma update_decision_clean (col : list pyval) (ri : nat) (r : string) :
  update_decision col ri = Ok (Some r) ->
  strip r = r /\ str_in r sentinels = false.
Proof.
  unfold update_decision. destruct (col !! ri) as [v|]; [|discriminate].
  intros [= H]. now apply accepted_clean in H.
Qed.

Lemma UpdateLocations_loop (col : list pyval) :
  df_columns pairs !! regionlabel = Some col ->
  UpdateLocations pairs chan_cnt regionlabel =
  for_each (seq 0 chan_cnt)
    (skip_set (fun ri => bind (lift (series_at col ri))
                              (fun reg => SetIfValid reg ri))).
Proof. intros H. unfold UpdateLocations. rewrite H. reflexivity. Qed.

Lemma UpdateLocations_keeps (st : list (option string)) :
  keeps st (snd (UpdateLocations pairs chan_cnt regionlabel st)).
Proof.
  destruct (df_columns pairs !! regionlabel) as [col|] eqn:E.
  - rewrite (UpdateLocations_loop col E).
    apply (loop_keeps _ (update_decision col)).
    intros ri st0. apply update_rest_run.
  - unfold UpdateLocations. rewrite E. apply keeps_refl.
Qed.

Lemma UpdateLocations_clean (st : list (option string)) :
  clean st -> clean (snd (UpdateLocations pairs chan_cnt regionlabel st)).
Proof.
  destruct (df_columns pairs !! regionlabel) as [col|] eqn:E.
  - rewrite (UpdateLocations_loop col E).
    apply (loop_clean _ (update_decision col)).
    + intros ri st0. apply update_rest_run.
    + apply update_decision_clean.
  - unfold UpdateLocations. rewrite E. exact id.
Qed.

(** After a source has passed, each pair has what it had, or the
    candidate of the source if it had nothing. *)
Lemma UpdateLocations_lookup (st st' : list (option string)) :
  length st = chan_cnt ->
  UpdateLocations pairs chan_cnt regionlabel st = (Ok tt, st') ->
  forall i, st' !! i = offer (candidate pairs regionlabel i) (st !! i).
Proof.
  intros Hlen Hrun i. unfold candidate.
  destruct (df_columns pairs !! regionlabel) as [col|] eqn:E.
  - rewrite (UpdateLocations_loop col E) in Hrun.
    rewrite (loop_lookup _ (update_decision col)
               (fun ri st0 => update_rest_run col ri st0) _ _ _ Hrun i).
    case_decide as Hin.
    + unfold update_decision. destruct (col !! i) as [v|]; [|reflexivity].
      destruct (accepted v); reflexivity.
    + assert (Hge : st !! i = None).
      { apply lookup_ge_None. rewrite Hlen.
        destruct (decide (i < chan_cnt)) as [Hlt|Hge]; [|lia].
        exfalso. apply Hin, elem_of_seq. lia. }
      now rewrite Hge.
  - unfold UpdateLocations in Hrun. rewrite E in Hrun.
    injection Hrun as <-. now destruct (st !! i) as [[v|]|].
Qed.

(** On a table whose columns have a cell for every row the source
    raises nothing. *)
Lemma UpdateLocations_total (st : list (option string)) :
  rectangular pairs -> chan_cnt = df_len pairs -> length st = chan_cnt ->
  exists st', UpdateLocations pairs chan_cnt regionlabel st = (Ok tt, st').
Proof.
  intros Hrect Hn Hlen.
  destruct (df_columns pairs !! regionlabel) as [col|] eqn:E.
  - rewrite (UpdateLocations_loop col E).
    apply (loop_total _ (update_decision col)).
    + intros ri st0. apply update_rest_run.
    + intros j Hj. apply elem_of_seq in Hj. lia.
    + intros j Hj _. apply elem_of_seq in Hj.
      unfold update_decision.
      destruct (col !! j) as [v|] eqn:Ej; [eauto|].
      apply lookup_ge_None in Ej. specialize (Hrect _ _ E). lia.
  - unfold UpdateLocations. rewrite E. eauto.
Qed.

End UpdateLocationsFacts.

(** ** The whole-brain step *)

Section WholeBrainFacts.

Variable whbr : gmap string pyval.
Variable labels : list pyval.

Lemma colocalize_run (ri : nat) (st : list (option string)) :
  st !! ri = Some None ->
  colocalize whbr labels ri st =
  apply_turn ri (coloc_decision whbr labels ri) st.
Proof.
  intros Hri. apply lookup_lt_Some in Hri.
  unfold colocalize, coloc_decision. rewrite bind_lift. unfold series_at.
  destruct (labels !! ri) as [label|]; [|reflexivity].
  rewrite bind_lift.
  destruct label as [l| | |z]; try reflexivity.
  unfold label_split, coloc_region. rewrite bind_lift. unfold item.
  destruct (split "-" l) as [|a rest]; [reflexivity|].
  simpl. unfold has_key.
  destruct (whbr !! a) as [r0|] eqn:Ea; [|reflexivity].
  rewrite bind_lift. destruct rest as [|b rest]; [reflexivity|].
  simpl. destruct (whbr !! b) as [r1|] eqn:Eb; [|reflexivity].
  unfold getitem. rewrite Ea, Eb, !bind_lift.
  destruct (py_eq r0 r1); [|reflexivity].
  rewrite bind_lift. now apply SetIfValid_run.
Qed.

Lemma coloc_decision_clean (ri : nat) (r : string) :
  coloc_decision whbr labels ri = Ok (Some r) ->
  strip r = r /\ str_in r sentinels = false.
Proof.
  unfold coloc_decision, coloc_region.
  destruct (labels !! ri) as [[l| | |z]|]; try discriminate.
  destruct (split "-" l) as [|a [|b rest]]; try discriminate;
    destruct (whbr !! a) as [r0|]; try discriminate.
  destruct (whbr !! b) as [r1|]; try discriminate.
  destruct (py_eq r0 r1); try discriminate.
  intros [= H]. now apply accepted_clean in H.
Qed.

End WholeBrainFacts.

Section Step.

Variable rd : Reader.
Variable chan_cnt : nat.

(** The [try] block: its inputs, then its loop. *)
Lemma whole_brain_step_run (st : list (option string)) :
  whole_brain_step rd chan_cnt st =
  match step_inputs rd chan_cnt with
  | Ok (whbr, labels) =>
      for_each (seq 0 chan_cnt) (skip_set (colocalize whbr labels)) st
  | Raise e => (Raise e, st)
  end.
Proof.
  unfold whole_brain_step, step_inputs. rewrite bind_lift.
  destruct (load_localization rd) as [locjson|e]; [|reflexivity].
  rewrite bind_lift.
  destruct (whole_brain locjson) as [whbr|e]; [|reflexivity].
  rewrite bind_lift.
  destruct (load_pairs rd) as [pairs|e]; [|reflexivity].
  rewrite bind_lift.
  destruct (attr_label pairs) as [labels|e]; [|reflexivity].
  destruct (length labels =? chan_cnt)%nat; reflexivity.
Qed.

Lemma whole_brain_step_keeps (st : list (option string)) :
  keeps st (snd (whole_brain_step rd chan_cnt st)).
Proof.
  rewrite whole_brain_step_run.
  destruct (step_inputs rd chan_cnt) as [[whbr labels]|e];
    [|apply keeps_refl].
  apply (loop_keeps _ (coloc_decision whbr labels)).
  intros ri st0. apply colocalize_run.
Qed.

Lemma whole_brain_step_clean (st : list (option string)) :
  clean st -> clean (snd (whole_brain_step rd chan_cnt st)).
Proof.
  rewrite whole_brain_step_run.
  destruct (step_inputs rd chan_cnt) as [[whbr labels]|e]; [|exact id].
  apply (loop_clean _ (coloc_decision whbr labels)).
  - intros ri st0. apply colocalize_run.
  - apply coloc_decision_clean.
Qed.

End Step.

(** ** The whole pass *)

Section Pass.

Variable rd : Reader.

(** A pass that returns went through its five sources in order. *)
Lemma LoadLocations_inv (locs : list (option string)) :
  LoadLocations rd = Ok locs ->
  exists pairs st1 st2 st3 st4 st5,
    let n := df_len pairs in
    load_pairs rd = Ok pairs /\
    UpdateLocations pairs n "stein.region" (replicate n None) = (Ok tt, st1) /\
    UpdateLocations pairs n "das.region" st1 = (Ok tt, st2) /\
    st3 = snd (whole_brain_step rd n st2) /\
    UpdateLocations pairs n "mni.region" st3 = (Ok tt, st4) /\
    UpdateLocations pairs n "ind.region" st4 = (Ok tt, st5) /\
    locs = map restrip st5.
Proof.
  unfold LoadLocations. destruct (load_pairs rd) as [pairs|e]; [|discriminate].
  unfold resolve, bind, try_pass.
  set (n := df_len pairs).
  destruct (UpdateLocations pairs n "stein.region" (replicate n None))
    as [[[]|e1] st1] eqn:H1; [|discriminate].
  destruct (UpdateLocations pairs n "das.region" st1)
    as [[[]|e2] st2] eqn:H2; [|discriminate].
  destruct (UpdateLocations pairs n "mni.region"
              (snd (whole_brain_step rd n st2)))
    as [[[]|e4] st4] eqn:H4; [|discriminate].
  destruct (UpdateLocations pairs n "ind.region" st4)
    as [[[]|e5] st5] eqn:H5; [|discriminate].
  intros [= <-].
  exists pairs, st1, st2, (snd (whole_brain_step rd n st2)), st4, st5.
  repeat split; assumption.
Qed.

Lemma restrip_clean (st : list (option string)) :
  clean st -> map restrip st = st.
Proof.
  intros Hc. apply list_eq. intros i. rewrite list_lookup_fmap.
  destruct (st !! i) as [[v|]|] eqn:E; simpl; try reflexivity.
  destruct (Hc i v E) as [-> _]. reflexivity.
Qed.

(** On a table whose columns have a cell for every row the pass returns. *)
Lemma LoadLocations_total (pairs : DataFrame) :
  load_pairs rd = Ok pairs -> rectangular pairs ->
  exists locs, LoadLocations rd = Ok locs.
Proof.
  intros Hp Hrect. unfold LoadLocations. rewrite Hp.
  unfold resolve, bind, try_pass. set (n := df_len pairs).
  destruct (UpdateLocations_total pairs n "stein.region" (replicate n None))
    as [st1 H1]; [assumption | reflexivity | apply length_replicate |].
  pose proof (UpdateLocations_keeps pairs n "stein.region" (replicate n None)) as [L1 _].
  rewrite H1 in L1 |- *. simpl in L1. rewrite length_replicate in L1.
  destruct (UpdateLocations_total pairs n "das.region" st1)
    as [st2 H2]; [assumption | reflexivity | assumption |].
  pose proof (UpdateLocations_keeps pairs n "das.region" st1) as [L2 _].
  rewrite H2 in L2 |- *. simpl in L2.
  pose proof (whole_brain_step_keeps rd n st2) as [L3 _].
  destruct (UpdateLocations_total pairs n "mni.region"
              (snd (whole_brain_step rd n st2)))
    as [st4 H4]; [assumption | reflexivity | congruence |].
  pose proof (UpdateLocations_keeps pairs n "mni.region"
                (snd (whole_brain_step rd n st2))) as [L4 _].
  rewrite H4 in L4 |- *. simpl in L4.
  destruct (UpdateLocations_total pairs n "ind.region" st4)
    as [st5 H5]; [assumption | reflexivity | congruence |].
  rewrite H5. eauto.
Qed.

End Pass.

Section Stages.

Variable rd : Reader.

(** The list after each source, for a pass that returns: the two
    first columns offer their candidates, the [try] block leaves some
    list [st3], and the two last columns offer theirs. *)
Lemma LoadLocations_stages (locs : list (option string)) :
  LoadLocations rd = Ok locs ->
  exists pairs st1 st2 st3,
    let n := df_len pairs in
    load_pairs rd = Ok pairs /\
    (forall i, i < n -> st1 !! i = Some (candidate pairs "stein.region" i)) /\
    (forall i, st2 !! i = offer (candidate pairs "das.region" i) (st1 !! i)) /\
    length st2 = n /\
    st3 = snd (whole_brain_step rd n st2) /\
    (forall i, locs !! i =
       offer (candidate pairs "ind.region" i)
         (offer (candidate pairs "mni.region" i) (st3 !! i))) /\
    keeps st1 st2 /\ keeps st2 st3 /\ keeps st3 locs /\
    length locs = n /\ clean locs.
Proof.
  intros H.
  destruct (LoadLocations_inv rd locs H)
    as (pairs & st1 & st2 & st3 & st4 & st5 & Hp & H1 & H2 & H3 & H4 & H5 & Hl).
  set (n := df_len pairs) in *.
  pose proof (UpdateLocations_keeps pairs n "stein.region" (replicate n None)) as K1.
  pose proof (UpdateLocations_keeps pairs n "das.region" st1) as K2.
  pose proof (whole_brain_step_keeps rd n st2) as K3.
  pose proof (UpdateLocations_keeps pairs n "mni.region" st3) as K4.
  pose proof (UpdateLocations_keeps pairs n "ind.region" st4) as K5.
  rewrite H1 in K1. rewrite H2 in K2. rewrite <- H3 in K3.
  rewrite H4 in K4. rewrite H5 in K5. simpl in K1, K2, K4, K5.
  assert (L1 : length st1 = n).
  { destruct K1 as [-> _]. apply length_replicate. }
  assert (L2 : length st2 = n) by (destruct K2; congruence).
  assert (L3 : length st3 = n) by (destruct K3; congruence).
  assert (L4 : length st4 = n) by (destruct K4; congruence).
  assert (L5 : length st5 = n) by (destruct K5; congruence).
  assert (C5 : clean st5).
  { pose proof (clean_replicate n) as C0.
    apply (UpdateLocations_clean pairs n "stein.region") in C0.
    rewrite H1 in C0. simpl in C0.
    apply (UpdateLocations_clean pairs n "das.region") in C0.
    rewrite H2 in C0. simpl in C0.
    apply (whole_brain_step_clean rd n) in C0. rewrite <- H3 in C0.
    apply (UpdateLocations_clean pairs n "mni.region") in C0.
    rewrite H4 in C0. simpl in C0.
    apply (UpdateLocations_clean pairs n "ind.region") in C0.
    rewrite H5 in C0. exact C0. }
  assert (E : locs = st5) by (rewrite Hl; now apply restrip_clean).
  clear Hl. subst locs.
  exists pairs, st1, st2, st3. cbv zeta. fold n.
  split; [exact Hp|]. split.
  { intros i Hi.
    rewrite (UpdateLocations_lookup pairs n "stein.region" _ st1
               (length_replicate n None) H1 i).
    now rewrite lookup_replicate_2 by exact Hi. }
  split; [exact (UpdateLocations_lookup pairs n "das.region" st1 st2 L1 H2)|].
  split; [exact L2|]. split; [exact H3|]. split.
  { intros i.
    rewrite (UpdateLocations_lookup pairs n "ind.region" st4 st5 L4 H5 i).
    now rewrite (UpdateLocations_lookup pairs n "mni.region" st3 st4 L3 H4 i). }
  split; [exact K2|]. split; [exact K3|].
  split; [eapply keeps_trans; eassumption|].
  split; [exact L5 | exact C5].
Qed.

End Stages.

(** ** Construction *)

(** A resolver built over a reader holds what [__LoadLocations] returned. *)
Lemma init_reader (rd : Reader) (self : Locator) :
  init (Some rd) = Ok self ->
  exists locs, LoadLocations rd = Ok locs /\ locations self = Some locs.
Proof.
  unfold init. destruct (LoadLocations rd) as [locs|e]; [|discriminate].
  intros [= <-]. exists locs. split; reflexivity.
Qed.

(** Built without a reader, it has the alias lists and no locations. *)
Lemma init_None (self : Locator) :
  init None = Ok self -> locations self = None.
Proof. intros [= <-]. reflexivity. Qed.

(** On a table whose columns have a cell for every row, construction
    succeeds. *)
Lemma init_total (rd : Reader) (pairs : DataFrame) :
  load_pairs rd = Ok pairs -> rectangular pairs ->
  exists self, init (Some rd) = Ok self.
Proof.
  intros Hp Hrect. destruct (LoadLocations_total rd pairs Hp Hrect) as [locs H].
  unfold init. rewrite H. eauto.
Qed.

(** ** The resolution pass: priority of the sources *)

(** C1. In a resolver built over a pairs table, a pair whose cell in
    the column [stein.region] is a string that is no sentinel once
    stripped has that stripped string for location, whatever the later
    sources hold; and no source, column or whole-brain step, changes a
    location that is already set. *)
Theorem first_source_wins (rd : Reader) (pairs : DataFrame)
    (self : Locator) (col : list pyval) (i : nat) (s : string) :
  load_pairs rd = Ok pairs ->
  init (Some rd) = Ok self ->
  i < df_len pairs ->
  df_columns pairs !! "stein.region" = Some col ->
  col !! i = Some (PyStr s) ->
  ~ In (strip s) sentinels ->
  (exists locs, locations self = Some locs /\
                locs !! i = Some (Some (strip s))) /\
  (forall c st, keeps st (snd (UpdateLocations pairs (df_len pairs) c st))) /\
  (forall st, keeps st (snd (try_pass (whole_brain_step rd (df_len pairs)) st))).
Proof.
  intros Hp Hinit Hi Hcol Hcell Hvalid.
  split; [|split].
  - destruct (init_reader rd self Hinit) as (locs & HL & Hlocs).
    exists locs. split; [exact Hlocs|].
    destruct (LoadLocations_stages rd locs HL)
      as (pairs' & st1 & st2 & st3 & Hp' & H1 & _ & _ & _ & _ & K2 & K3 & K4 & _).
    rewrite Hp in Hp'. injection Hp' as <-.
    apply K4, K3, K2. rewrite (H1 i Hi). do 2 f_equal.
    unfold candidate. rewrite Hcol, Hcell. unfold accepted.
    apply str_in_false in Hvalid. now rewrite Hvalid.
  - intros c st. apply UpdateLocations_keeps.
  - intros st. unfold try_pass. simpl. apply whole_brain_step_keeps.
Qed.

Lemma first_source_wins_witness :
  exists locs, locations (built rd_two) = Some locs /\
               locs !! 0 = Some (Some "CA1").
Proof.
  destruct (first_source_wins rd_two
              (table 2 [column "label" [PyStr "LA1-LA2"; PyStr "LB1-LB2"];
                        column "stein.region" [PyStr "CA1"; PyNone];
                        column "das.region" [PyStr "prc"; PyStr " insula "]])
              (built rd_two) [PyStr "CA1"; PyNone] 0 "CA1") as [H _].
  - reflexivity.
  - vm_compute. reflexivity.
  - simpl. lia.
  - vm_compute. reflexivity.
  - reflexivity.
  - vm_compute. intuition discriminate.
  - exact H.
Defined.

(** ** The validity filter *)

(** C2. A candidate changes the entry of its pair only if it is a
    string that, once stripped, is none of [unknown], [misc], [None],
    [nan] and the empty string, compared with case; it is then stored
    stripped, case unchanged.  Any other candidate leaves the list as
    it is, the pair still absent.  No location of a built resolver is a
    sentinel, and each is stripped. *)
Theorem sentinel_rejection (reg : pyval) (ri : nat)
    (st : list (option string)) (rd : Reader) (self : Locator) :
  st !! ri = Some None ->
  init (Some rd) = Ok self ->
  (exists st', SetIfValid reg ri st = (Ok tt, st') /\
     (forall j, j <> ri -> st' !! j = st !! j) /\
     ((exists s, reg = PyStr s /\
         ~ In (strip s) ["unknown"; "misc"; "None"; "nan"; EmptyString] /\
         st' !! ri = Some (Some (strip s)))
      \/
      ((forall s, reg = PyStr s ->
          In (strip s) ["unknown"; "misc"; "None"; "nan"; EmptyString]) /\
       st' = st))) /\
  (exists locs, locations self = Some locs /\
     forall i v, locs !! i = Some (Some v) ->
       ~ In v ["unknown"; "misc"; "None"; "nan"; EmptyString] /\ strip v = v).
Proof.
  intros Hri Hinit. split.
  - pose proof (lookup_lt_Some _ _ _ Hri) as Hlt.
    rewrite (SetIfValid_run reg ri st Hlt). unfold apply_turn, accepted.
    destruct reg as [s| | |z];
      try (exists st; split; [reflexivity|]; split; [reflexivity|];
           right; split; [discriminate | reflexivity]).
    destruct (str_in (strip s) sentinels) eqn:E.
    + exists st. split; [reflexivity|]. split; [reflexivity|].
      right. split; [|reflexivity].
      intros s' [= <-]. now apply str_in_In.
    + exists (<[ri := Some (strip s)]> st). split; [reflexivity|]. split.
      * intros j Hj. now rewrite list_lookup_insert_ne by congruence.
      * left. exists s. split; [reflexivity|]. split.
        -- now apply str_in_false.
        -- now apply list_lookup_insert_eq.
  - destruct (init_reader rd self Hinit) as (locs & HL & Hlocs).
    exists locs. split; [exact Hlocs|].
    destruct (LoadLocations_stages rd locs HL)
      as (pairs & st1 & st2 & st3 & _ & _ & _ & _ & _ & _ & _ & _ & _ & _ & Hc).
    intros i v Hi. destruct (Hc i v Hi) as [Hs Hv].
    split; [now apply str_in_false | exact Hs].
Qed.

Lemma sentinel_rejection_witness :
  (exists st', SetIfValid (PyStr " Unknown ") 1 [None; None] = (Ok tt, st') /\
               st' !! 1 = Some (Some "Unknown")) /\
  (exists locs, locations (built rd_two) = Some locs /\
     forall i v, locs !! i = Some (Some v) ->
       ~ In v ["unknown"; "misc"; "None"; "nan"; EmptyString] /\ strip v = v).
Proof.
  destruct (sentinel_rejection (PyStr " Unknown ") 1 [None; None] rd_two
              (built rd_two)) as [(st' & Hrun & _ & Hcase) Hfinal].
  - reflexivity.
  - vm_compute. reflexivity.
  - split; [|exact Hfinal]. exists st'. split; [exact Hrun|].
    destruct Hcase as [(s & [= <-] & _ & Hs)|[Hrej _]].
    + exact Hs.
    + exfalso. specialize (Hrej " Unknown " eq_refl).
      vm_compute in Hrej. intuition discriminate.
Defined.

(** The filter compares with case, after stripping. *)
Example SetIfValid_ex :
  SetIfValid (PyStr " unknown ") 0 [None] = (Ok tt, [None]) /\
  SetIfValid (PyStr "Unknown") 0 [None] = (Ok tt, [Some "Unknown"]) /\
  SetIfValid (PyStr "NaN") 0 [None] = (Ok tt, [Some "NaN"]) /\
  SetIfValid (PyStr "nan") 0 [None] = (Ok tt, [None]) /\
  SetIfValid (PyStr "  ") 0 [None] = (Ok tt, [None]) /\
  SetIfValid PyNaN 0 [None] = (Ok tt, [None]) /\
  SetIfValid PyNone 0 [None] = (Ok tt, [None]).
Proof. repeat split; reflexivity. Qed.

(** ** The whole-brain step: co-localization *)

Lemma step_inputs_ok (rd : Reader) (pairs : DataFrame) (locjson : Localization)
    (whbr : gmap string pyval) (labels : list pyval) :
  load_pairs rd = Ok pairs ->
  load_localization rd = Ok locjson ->
  whole_brain locjson = Ok whbr ->
  df_columns pairs !! "label" = Some labels ->
  length labels = df_len pairs ->
  step_inputs rd (df_len pairs) = Ok (whbr, labels).
Proof.
  intros Hp Hl Hw Hlab Hlen. unfold step_inputs, attr_label.
  rewrite Hl, Hw, Hp, Hlab, Hlen, Nat.eqb_refl. reflexivity.
Qed.

(** C3, as the code has it.  A pair that [stein.region] and
    [das.region] leave absent, whose label splits on [-] into two
    contact names (or more) that are both keys of the whole-brain map
    with the same region string, no sentinel once stripped, has that
    stripped region for location, provided the step reaches the pair:
    the localization structure gives the map, the label column has one
    label per pair, and no earlier pair left absent has a label whose
    turn raises. *)
Theorem colocalization (rd : Reader) (pairs : DataFrame) (self : Locator)
    (locjson : Localization) (whbr : gmap string pyval)
    (labels : list pyval) (i : nat) (l a b : string) (rest : list string)
    (r : string) :
  load_pairs rd = Ok pairs ->
  init (Some rd) = Ok self ->
  load_localization rd = Ok locjson ->
  whole_brain locjson = Ok whbr ->
  df_columns pairs !! "label" = Some labels ->
  length labels = df_len pairs ->
  (forall j, j < i ->
     candidate pairs "stein.region" j = None ->
     candidate pairs "das.region" j = None ->
     exists d, coloc_decision whbr labels j = Ok d) ->
  candidate pairs "stein.region" i = None ->
  candidate pairs "das.region" i = None ->
  labels !! i = Some (PyStr l) ->
  split "-" l = a :: b :: rest ->
  whbr !! a = Some (PyStr r) ->
  whbr !! b = Some (PyStr r) ->
  ~ In (strip r) sentinels ->
  exists locs, locations self = Some locs /\
               locs !! i = Some (Some (strip r)).
Proof.
  intros Hp Hinit Hl Hw Hlab Hlen Hbefore Hs Hd Hlabel Hsplit Ha Hb Hvalid.
  destruct (init_reader rd self Hinit) as (locs & HL & Hlocs).
  exists locs. split; [exact Hlocs|].
  destruct (LoadLocations_stages rd locs HL)
    as (pairs' & st1 & st2 & st3 & Hp' & H1 & H2 & L2 & H3 & _ & _ & _ & K4 & _).
  rewrite Hp in Hp'. injection Hp' as <-.
  set (n := df_len pairs) in *.
  assert (Hi : i < n).
  { apply lookup_lt_Some in Hlabel. lia. }
  assert (Habsent : forall j, j < n -> st2 !! j = Some None ->
            candidate pairs "stein.region" j = None /\
            candidate pairs "das.region" j = None).
  { intros j Hj Hnone. rewrite H2, (H1 j Hj) in Hnone.
    destruct (candidate pairs "stein.region" j); [discriminate|].
    simpl in Hnone. injection Hnone as ->. split; reflexivity. }
  apply K4. rewrite H3, whole_brain_step_run.
  pose proof (step_inputs_ok rd pairs locjson whbr labels Hp Hl Hw Hlab Hlen)
    as Hin.
  fold n in Hin. rewrite Hin. clear Hin.
  assert (Hseq : seq 0 n = seq 0 i ++ i :: seq (S i) (n - S i)).
  { replace n with (i + S (n - S i)) at 1 by lia.
    rewrite seq_app. reflexivity. }
  rewrite Hseq.
  apply (loop_reaches _ (coloc_decision whbr labels)).
  - intros ri st0. apply colocalize_run.
  - intros j Hj. apply elem_of_seq in Hj. lia.
  - intros j Hj Hnone. apply elem_of_seq in Hj.
    destruct (Habsent j ltac:(lia) Hnone) as [Hsj Hdj].
    apply Hbefore; [lia | exact Hsj | exact Hdj].
  - intros Hin. apply elem_of_seq in Hin. lia.
  - rewrite H2, (H1 i Hi), Hs, Hd. reflexivity.
  - unfold coloc_decision, coloc_region. rewrite Hlabel, Hsplit, Ha, Hb.
    cbv beta iota. unfold py_eq. rewrite String.eqb_refl. unfold accepted.
    apply str_in_false in Hvalid. now rewrite Hvalid.
Qed.

(** Over the atlas [A1 -> X], [A2 -> X], the pair [A1-A2] of row 1,
    with no region column, is located in [X]. *)
Lemma colocalization_witness :
  exists locs, locations (built rd_coloc) = Some locs /\
               locs !! 1 = Some (Some "X").
Proof.
  apply (colocalization rd_coloc
           (table 2 [column "label" [PyStr "B1-B2"; PyStr "A1-A2"]])
           (built rd_coloc)
           (atlas [("A1", PyStr "X"); ("A2", PyStr "X")])
           (list_to_map [("A1", PyStr "X"); ("A2", PyStr "X")])
           [PyStr "B1-B2"; PyStr "A1-A2"] 1 "A1-A2" "A1" "A2" [] "X").
  - reflexivity.
  - vm_compute. reflexivity.
  - reflexivity.
  - vm_compute. reflexivity.
  - vm_compute. reflexivity.
  - reflexivity.
  - intros j Hj _ _. assert (j = 0) as -> by lia.
    eexists. vm_compute. reflexivity.
  - vm_compute. reflexivity.
  - vm_compute. reflexivity.
  - reflexivity.
  - reflexivity.
  - vm_compute. reflexivity.
  - vm_compute. reflexivity.
  - vm_compute. intuition discriminate.
Defined.

(** The claim without the proviso fails: over the same atlas, the pair
    [A1-A2] of row 1 meets every condition of the claim, yet the label
    [A1] of row 0 ends the step before it, and row 1 stays absent. *)
Lemma colocalization_counterexample :
  let pairs := table 2 [column "label" [PyStr "A1"; PyStr "A1-A2"]] in
  let whbr : gmap string pyval :=
    list_to_map [("A1", PyStr "X"); ("A2", PyStr "X")] in
  load_pairs rd_bad_first = Ok pairs /\
  step_inputs rd_bad_first 2 = Ok (whbr, [PyStr "A1"; PyStr "A1-A2"]) /\
  candidate pairs "stein.region" 1 = None /\
  candidate pairs "das.region" 1 = None /\
  split "-" "A1-A2" = ["A1"; "A2"] /\
  whbr !! "A1" = Some (PyStr "X") /\
  whbr !! "A2" = Some (PyStr "X") /\
  accepted (PyStr "X") = Some "X" /\
  LoadLocations rd_bad_first = Ok [None; None] /\
  ~ (exists self locs,
       init (Some rd_bad_first) = Ok self /\ locations self = Some locs /\
       locs !! 1 = Some (Some "X")).
Proof.
  repeat (split; [vm_compute; reflexivity|]).
  intros (self & locs & Hinit & Hlocs & H1).
  destruct (init_reader _ _ Hinit) as (locs' & HL & Hlocs').
  vm_compute in HL. rewrite Hlocs in Hlocs'.
  injection HL as <-. injection Hlocs' as ->. discriminate.
Qed.

(** ** The whole-brain step: failures *)


(** The labels on which a turn raises: one that is no string, and one
    whose first part is a key of the map and which has no second part. *)
Lemma coloc_region_raise (whbr : gmap string pyval) (label : pyval) (e : exn) :
  coloc_region whbr label = Raise e <->
  (forall l, label <> PyStr l) /\ e = AttributeError
  \/ exists l a, label = PyStr l /\ split "-" l = [a] /\
                 is_Some (whbr !! a) /\ e = IndexError.
Proof.
  unfold coloc_region. split.
  - destruct label as [l| | |z];
      try (intros [= <-]; left; split; [discriminate | reflexivity]).
    pose proof (split_nonempty "-" l) as Hne.
    destruct (split "-" l) as [|a [|b rest]] eqn:Hs; [congruence| |].
    + destruct (whbr !! a) as [r0|] eqn:Ea; [|discriminate].
      intros [= <-]. right. exists l, a.
      split; [reflexivity|]. split; [exact Hs|].
      split; [now exists r0 | reflexivity].
    + destruct (whbr !! a) as [r0|]; [|discriminate].
      destruct (whbr !! b) as [r1|]; [|discriminate].
      destruct (py_eq r0 r1); discriminate.
  - intros [[Hno ->]|(l & a & -> & Hs & [r0 Ha] & ->)].
    + destruct label as [l| | |z]; try reflexivity. now destruct (Hno l).
    + now rewrite Hs, Ha.
Qed.




(** ** The queries *)

Section Queries.

Variable self : Locator.
Variable locs : list (option string).
Hypothesis self_locations : locations self = Some locs.

Lemma Matching_run (regions : regions_arg) :
  Matching self regions = Ok (map (matches (as_list regions)) locs).
Proof. unfold Matching, get_locations. now rewrite self_locations. Qed.

Lemma matches_true (aliases : list string) (loc : option string) :
  matches aliases loc = true <->
  exists s a, loc = Some s /\ In a aliases /\ norm s = norm a.
Proof.
  destruct loc as [s|]; simpl.
  - rewrite str_in_In, in_map_iff. split.
    + intros (a & Ha & Hin). exists s, a. auto.
    + intros (s' & a & [= <-] & Hin & Hn). exists a. auto.
  - split; [discriminate|]. intros (s & a & H & _). discriminate.
Qed.

Lemma Matching_holds (regions : regions_arg) (i : nat) :
  holds_at (Matching self regions) i <->
  exists s a, locs !! i = Some (Some s) /\
              In a (as_list regions) /\ norm s = norm a.
Proof.
  rewrite Matching_run. simpl. rewrite list_lookup_fmap.
  destruct (locs !! i) as [loc|] eqn:E; simpl.
  - split.
    + intros [= H]. apply matches_true in H.
      destruct H as (s & a & -> & Hin & Hn). exists s, a. auto.
    + intros (s & a & [= ->] & Hin & Hn). f_equal.
      apply matches_true. exists s, a. auto.
  - split; [discriminate|]. intros (s & a & H & _). discriminate.
Qed.

Lemma Matching_is (regions : regions_arg) :
  mask_is (length locs) locs (as_list regions) (Matching self regions).
Proof.
  rewrite Matching_run. eexists. split; [reflexivity|].
  split; [apply length_map|]. intros i. apply list_lookup_fmap.
Qed.

Lemma Regions_Some (regions : regions_arg) :
  Regions self (Some regions) =
  Matching self
    (StrList (as_list regions ++ map (append "Left ") (as_list regions)
                ++ map (append "Right ") (as_list regions))).
Proof. reflexivity. Qed.

Lemma Regions_None : Regions self None = Ok (replicate (length locs) true).
Proof.
  unfold Regions, get_locations. rewrite self_locations. f_equal.
  clear self_locations. induction locs as [|x l IH]; simpl; congruence.
Qed.

(** More aliases, more pairs. *)
Lemma Matching_incl (l1 l2 : list string) (i : nat) :
  incl l1 l2 ->
  holds_at (Matching self (StrList l1)) i ->
  holds_at (Matching self (StrList l2)) i.
Proof.
  intros Hincl. rewrite !Matching_holds.
  intros (s & a & Hs & Hin & Hn). exists s, a. auto.
Qed.

Lemma Regions_incl (l1 l2 : list string) (i : nat) :
  incl l1 l2 ->
  holds_at (Regions self (Some (StrList l1))) i ->
  holds_at (Regions self (Some (StrList l2))) i.
Proof.
  intros Hincl. rewrite !Regions_Some. apply Matching_incl. simpl.
  intros a Ha. rewrite !in_app_iff, !in_map_iff in *.
  destruct Ha as [Ha|[(x & <- & Hx)|(x & <- & Hx)]]; eauto 6.
Qed.

Lemma LeftRegions_incl (l1 l2 : list string) (i : nat) :
  incl l1 l2 ->
  holds_at (LeftRegions self (StrList l1)) i ->
  holds_at (LeftRegions self (StrList l2)) i.
Proof.
  intros Hincl. apply Matching_incl. simpl. now apply incl_map.
Qed.

Lemma RightRegions_incl (l1 l2 : list string) (i : nat) :
  incl l1 l2 ->
  holds_at (RightRegions self (StrList l1)) i ->
  holds_at (RightRegions self (StrList l2)) i.
Proof.
  intros Hincl. apply Matching_incl. simpl. now apply incl_map.
Qed.

End Queries.

(** C5. [Matching(regions)[i]] is [True] exactly when the location of
    pair [i] is a string whose lowered and stripped form equals the
    lowered and stripped form of one of the aliases; an absent location
    gives [False]; one string stands for the list holding it. *)
Theorem Matching_exact (self : Locator) (locs : list (option string))
    (regions : regions_arg) (i : nat) :
  locations self = Some locs ->
  exists m,
    Matching self regions = Ok m /\
    length m = length locs /\
    (m !! i = Some true <->
     exists s a, locs !! i = Some (Some s) /\ In a (as_list regions) /\
                 strip (lower s) = strip (lower a)) /\
    (locs !! i = Some None -> m !! i = Some false) /\
    (forall a, Matching self (OneStr a) = Matching self (StrList [a])).
Proof.
  intros Hlocs.
  exists (map (matches (as_list regions)) locs).
  split; [now apply Matching_run|]. split; [apply length_map|].
  split; [|split].
  - pose proof (Matching_holds self locs Hlocs regions i) as H.
    rewrite (Matching_run self locs Hlocs) in H. exact H.
  - intros Hnone. now rewrite list_lookup_fmap, Hnone.
  - reflexivity.
Qed.

Lemma Matching_exact_witness :
  Matching (built rd_sides) (OneStr " left HIPPOCAMPUS ")
  = Ok [true; false; false; false; true].
Proof.
  destruct (Matching_exact (built rd_sides)
              [Some "Left Hippocampus"; Some "Hippocampus";
               Some "Right Hippocampus"; None; Some "LEFT hippocampus"]
              (OneStr " left HIPPOCAMPUS ") 0) as (m & Hm & _).
  - vm_compute. reflexivity.
  - rewrite Hm. vm_compute in Hm. injection Hm as <-. reflexivity.
Defined.

(** Matching is on whole strings: a location that only contains an
    alias, or is contained in one, does not match. *)
Example Matching_no_substring :
  matches ["Hippo"] (Some "Hippocampus") = false /\
  matches ["Left Hippocampus"] (Some "Hippocampus") = false /\
  matches ["hippocampus  "] (Some " HIPPOCAMPUS") = true.
Proof. repeat split; reflexivity. Qed.

(** C6. For aliases given, [Regions] is [Matching] on the aliases
    followed by their [Left ]-prefixed and their [Right ]-prefixed
    forms, so that pair [i] is selected exactly when its location
    equals, once both are lowered and stripped, an alias in one of the
    three forms.  [Regions(None)] is [True] for each of the pairs. *)
Theorem Regions_both_sides (self : Locator) (locs : list (option string))
    (regions : regions_arg) (i : nat) :
  locations self = Some locs ->
  Regions self (Some regions) =
    Matching self
      (StrList (as_list regions ++ map (append "Left ") (as_list regions)
                  ++ map (append "Right ") (as_list regions))) /\
  (holds_at (Regions self (Some regions)) i <->
   exists s a, locs !! i = Some (Some s) /\ In a (as_list regions) /\
     (norm s = norm a \/ norm s = norm ("Left " ++ a)%string
      \/ norm s = norm ("Right " ++ a)%string)) /\
  Regions self None = Ok (replicate (length locs) true).
Proof.
  intros Hlocs. split; [reflexivity|]. split; [|now apply Regions_None].
  rewrite Regions_Some, (Matching_holds self locs Hlocs). simpl. split.
  - intros (s & a & Hs & Hin & Hn). exists s.
    rewrite !in_app_iff, !in_map_iff in Hin.
    destruct Hin as [Hin|[(x & <- & Hx)|(x & <- & Hx)]]; eauto 8.
  - intros (s & a & Hs & Hin & [Hn|[Hn|Hn]]).
    + exists s, a. rewrite !in_app_iff. auto.
    + exists s, ("Left " ++ a)%string. rewrite !in_app_iff, !in_map_iff.
      split; [exact Hs|]. split; [|exact Hn]. right. left. eauto.
    + exists s, ("Right " ++ a)%string. rewrite !in_app_iff, !in_map_iff.
      split; [exact Hs|]. split; [|exact Hn]. right. right. eauto.
Qed.

Lemma Regions_both_sides_witness :
  Regions (built rd_sides) (Some (OneStr "hippocampus"))
    = Ok [true; true; true; false; true] /\
  Regions (built rd_sides) None = Ok [true; true; true; true; true].
Proof.
  destruct (Regions_both_sides (built rd_sides)
              [Some "Left Hippocampus"; Some "Hippocampus";
               Some "Right Hippocampus"; None; Some "LEFT hippocampus"]
              (OneStr "hippocampus") 0) as (Hr & _ & Hnone).
  - vm_compute. reflexivity.
  - split; [rewrite Hr; vm_compute; reflexivity | exact Hnone].
Defined.

(** C7. [LeftRegions] is [Matching] on the [Left ]-prefixed aliases
    alone and [RightRegions] on the [Right ]-prefixed ones alone.
    [LeftRegions(["Hippocampus"])[i]] is [True] exactly when the
    location of pair [i], lowered and stripped, is [left hippocampus];
    it is [False] for [Hippocampus] and for [Right Hippocampus]. *)
Theorem side_exclusive (self : Locator) (locs : list (option string))
    (regions : regions_arg) (i : nat) :
  locations self = Some locs ->
  LeftRegions self regions =
    Matching self (StrList (map (append "Left ") (as_list regions))) /\
  RightRegions self regions =
    Matching self (StrList (map (append "Right ") (as_list regions))) /\
  (holds_at (LeftRegions self regions) i <->
   exists s a, locs !! i = Some (Some s) /\ In a (as_list regions) /\
               norm s = norm ("Left " ++ a)%string) /\
  (holds_at (RightRegions self regions) i <->
   exists s a, locs !! i = Some (Some s) /\ In a (as_list regions) /\
               norm s = norm ("Right " ++ a)%string) /\
  (holds_at (LeftRegions self (StrList ["Hippocampus"])) i <->
   exists s, locs !! i = Some (Some s) /\ norm s = "left hippocampus") /\
  (forall s, locs !! i = Some (Some s) ->
     norm s = norm "Hippocampus" \/ norm s = norm "Right Hippocampus" ->
     exists m, LeftRegions self (StrList ["Hippocampus"]) = Ok m /\
               m !! i = Some false).
Proof.
  intros Hlocs.
  assert (HL : forall side regions',
             holds_at (Matching self
                         (StrList (map (append side) (as_list regions')))) i <->
             exists s a, locs !! i = Some (Some s) /\ In a (as_list regions') /\
                         norm s = norm (side ++ a)%string).
  { intros side regions'. rewrite (Matching_holds self locs Hlocs). simpl. split.
    - intros (s & a & Hs & Hin & Hn). apply in_map_iff in Hin.
      destruct Hin as (x & <- & Hx). eauto.
    - intros (s & a & Hs & Hin & Hn). exists s, (side ++ a)%string.
      split; [exact Hs|]. split; [|exact Hn]. apply in_map_iff. eauto. }
  split; [reflexivity|]. split; [reflexivity|].
  split; [apply HL|]. split; [apply HL|]. split.
  - unfold LeftRegions. rewrite (HL "Left " (StrList ["Hippocampus"])). simpl.
    split.
    + intros (s & a & Hs & [<-|[]] & Hn). eauto.
    + intros (s & Hs & Hn). exists s, "Hippocampus". auto.
  - intros s Hs Hn. unfold LeftRegions.
    rewrite (Matching_run self locs Hlocs). eexists. split; [reflexivity|].
    rewrite list_lookup_fmap, Hs. simpl. do 2 f_equal.
    destruct Hn as [-> | ->]; reflexivity.
Qed.

Lemma side_exclusive_witness :
  LeftRegions (built rd_sides) (StrList ["Hippocampus"])
    = Ok [true; false; false; false; true].
Proof.
  destruct (side_exclusive (built rd_sides)
              [Some "Left Hippocampus"; Some "Hippocampus";
               Some "Right Hippocampus"; None; Some "LEFT hippocampus"]
              (StrList ["Hippocampus"]) 0) as (HL & _).
  - vm_compute. reflexivity.
  - rewrite HL. vm_compute. reflexivity.
Defined.

(** Two pairs, [stein.region] naming the first and [das.region] the
    second. *)
Example two_pairs :
  All (built rd_two) = Ok [Some "CA1"; Some "insula"] /\
  Hippocampus (built rd_two) = Ok [true; false] /\
  MTL (built rd_two) = Ok [true; false] /\
  LeftHippocampus (built rd_two) = Ok [false; false].
Proof. repeat split; vm_compute; reflexivity. Qed.

(** ** The taxonomy *)

(** The alias lists of an instance, as [__init__] nests them. *)
Lemma init_regions (rdr : option Reader) (self : Locator) :
  init rdr = Ok self ->
  exists mtl_only temporal_only,
    mtl_regions self = hippocampus_regions self ++ mtl_only /\
    temporal_regions self =
      mtl_regions self ++ ltc_regions self ++ temporal_only.
Proof.
  unfold init. intros H.
  destruct rdr as [rd|]; [destruct (LoadLocations rd) as [locs|e]|];
    try discriminate; injection H as <-; simpl; eauto.
Qed.

(** C9. In every instance, each alias of [hippocampus_regions] is in
    [mtl_regions] and in [temporal_regions], and each alias of
    [mtl_regions] or of [ltc_regions] is in [temporal_regions]. *)
Theorem taxonomy_superset (rdr : option Reader) (self : Locator) :
  init rdr = Ok self ->
  incl (hippocampus_regions self) (mtl_regions self) /\
  incl (hippocampus_regions self) (temporal_regions self) /\
  incl (mtl_regions self) (temporal_regions self) /\
  incl (ltc_regions self) (temporal_regions self).
Proof.
  intros H. destruct (init_regions rdr self H) as (x & y & Hm & Ht).
  rewrite Ht, Hm. unfold incl.
  split; [|split; [|split]]; intros a Ha;
    rewrite ?in_app_iff in *; tauto.
Qed.

Lemma taxonomy_superset_witness :
  incl (hippocampus_regions (built rd_two)) (mtl_regions (built rd_two)) /\
  incl (ltc_regions (built rd_two)) (temporal_regions (built rd_two)).
Proof.
  destruct (taxonomy_superset (Some rd_two) (built rd_two)) as (H1 & _ & _ & H4).
  - vm_compute. reflexivity.
  - split; [exact H1 | exact H4].
Defined.

(** C10. Pair by pair, [Hippocampus] implies [MTL], [MTL] implies
    [Temporal] and [LTC] implies [Temporal]; so do their [Left] and
    their [Right] forms. *)
Theorem mask_monotone (rdr : option Reader) (self : Locator) (i : nat) :
  init rdr = Ok self ->
  ((holds_at (Hippocampus self) i -> holds_at (MTL self) i) /\
   (holds_at (Hippocampus self) i -> holds_at (Temporal self) i) /\
   (holds_at (MTL self) i -> holds_at (Temporal self) i) /\
   (holds_at (LTC self) i -> holds_at (Temporal self) i)) /\
  ((holds_at (LeftHippocampus self) i -> holds_at (LeftMTL self) i) /\
   (holds_at (LeftHippocampus self) i -> holds_at (LeftTemporal self) i) /\
   (holds_at (LeftMTL self) i -> holds_at (LeftTemporal self) i) /\
   (holds_at (LeftLTC self) i -> holds_at (LeftTemporal self) i)) /\
  ((holds_at (RightHippocampus self) i -> holds_at (RightMTL self) i) /\
   (holds_at (RightHippocampus self) i -> holds_at (RightTemporal self) i) /\
   (holds_at (RightMTL self) i -> holds_at (RightTemporal self) i) /\
   (holds_at (RightLTC self) i -> holds_at (RightTemporal self) i)).
Proof.
  intros H. destruct (init_regions rdr self H) as (x & y & Hm & Ht).
  assert (Hhm : incl (hippocampus_regions self) (mtl_regions self)).
  { rewrite Hm. apply incl_appl, incl_refl. }
  assert (Hmt : incl (mtl_regions self) (temporal_regions self)).
  { rewrite Ht. apply incl_appl, incl_refl. }
  assert (Hlt : incl (ltc_regions self) (temporal_regions self)).
  { rewrite Ht. apply incl_appr, incl_appl, incl_refl. }
  assert (Hht : incl (hippocampus_regions self) (temporal_regions self)).
  { eapply incl_tran; eassumption. }
  destruct (locations self) as [locs|] eqn:Hlocs.
  - unfold Hippocampus, MTL, LTC, Temporal,
      LeftHippocampus, LeftMTL, LeftLTC, LeftTemporal,
      RightHippocampus, RightMTL, RightLTC, RightTemporal.
    repeat split;
      first [now apply (Regions_incl self locs Hlocs)
            | now apply (LeftRegions_incl self locs Hlocs)
            | now apply (RightRegions_incl self locs Hlocs)].
  - unfold Hippocampus, MTL, LTC, Temporal,
      LeftHippocampus, LeftMTL, LeftLTC, LeftTemporal,
      RightHippocampus, RightMTL, RightLTC, RightTemporal,
      Regions, LeftRegions, RightRegions, Matching, get_locations.
    rewrite Hlocs. simpl. tauto.
Qed.

Lemma mask_monotone_witness :
  holds_at (Hippocampus (built rd_two)) 0 /\
  holds_at (MTL (built rd_two)) 0 /\
  holds_at (Temporal (built rd_two)) 0.
Proof.
  destruct (mask_monotone (Some rd_two) (built rd_two) 0) as ((H1 & H2 & _) & _).
  - vm_compute. reflexivity.
  - assert (H0 : holds_at (Hippocampus (built rd_two)) 0)
      by (vm_compute; reflexivity).
    split; [exact H0|]. split; [exact (H1 H0) | exact (H2 H0)].
Defined.

(** ** Further properties: the order of the sources *)

Section LoopEntries.

Variable rest : nat -> Loc unit.
Variable decision : nat -> result (option string).

Hypothesis rest_run : forall ri st,
  st !! ri = Some None -> rest ri st = apply_turn ri (decision ri) st.

(** Whether it raises or not, a loop leaves an entry as it was or as
    the decision for that pair makes it. *)
Lemma loop_entry (l : list nat) (st : list (option string)) (i : nat) :
  snd (for_each l (skip_set rest) st) !! i = st !! i \/
  snd (for_each l (skip_set rest) st) !! i
    = offer (stored (decision i)) (st !! i).
Proof.
  revert st. induction l as [|x l IH]; intros st; [now left|].
  simpl. unfold bind.
  destruct (skip_set rest x st) as [[[]|e] st1] eqn:Hx.
  - pose proof (turn_lookup rest decision rest_run x st st1 Hx i) as H1.
    destruct (IH st1) as [H|H]; rewrite H, H1; case_decide; subst;
      auto using offer_idem.
  - rewrite (skip_set_run rest decision rest_run) in Hx.
    destruct (st !! x) as [[v|]|]; try discriminate.
    + unfold apply_turn in Hx.
      destruct (decision x) as [[r|]|e1]; try discriminate.
      injection Hx as _ <-. now left.
    + injection Hx as _ <-. now left.
Qed.

End LoopEntries.

Section StepEntries.

Variable rd : Reader.
Variable chan_cnt : nat.

(** A [try] block whose loop raises on no pair it treats offers each
    pair what its label decides. *)
Lemma whole_brain_step_lookup (whbr : gmap string pyval)
    (labels : list pyval) (st : list (option string)) :
  step_inputs rd chan_cnt = Ok (whbr, labels) ->
  length st = chan_cnt ->
  (forall j, j < chan_cnt -> st !! j = Some None ->
     exists d, coloc_decision whbr labels j = Ok d) ->
  forall i, snd (whole_brain_step rd chan_cnt st) !! i
            = offer (stored (coloc_decision whbr labels i)) (st !! i).
Proof.
  intros Hin Hlen Hok i. rewrite whole_brain_step_run, Hin.
  destruct (loop_total _ (coloc_decision whbr labels)
              (fun ri st0 => colocalize_run whbr labels ri st0)
              (seq 0 chan_cnt) st) as [st' Hrun].
  - intros j Hj. apply elem_of_seq in Hj. lia.
  - intros j Hj. apply elem_of_seq in Hj. apply Hok. lia.
  - rewrite Hrun. simpl.
    rewrite (loop_lookup _ (coloc_decision whbr labels)
               (fun ri st0 => colocalize_run whbr labels ri st0) _ _ _ Hrun i).
    case_decide as Hi; [reflexivity|].
    assert (Hnone : st !! i = None).
    { apply lookup_ge_None. rewrite Hlen.
      destruct (decide (i < chan_cnt)) as [Hlt|Hge]; [|lia].
      exfalso. apply Hi, elem_of_seq. lia. }
    now rewrite Hnone.
Qed.

(** Whatever happens in the [try] block, an entry it changes is the
    region the label of that pair decides. *)
Lemma whole_brain_step_entry (st : list (option string)) (i : nat) :
  snd (whole_brain_step rd chan_cnt st) !! i = st !! i \/
  exists whbr labels,
    step_inputs rd chan_cnt = Ok (whbr, labels) /\
    snd (whole_brain_step rd chan_cnt st) !! i
      = offer (stored (coloc_decision whbr labels i)) (st !! i).
Proof.
  rewrite whole_brain_step_run.
  destruct (step_inputs rd chan_cnt) as [[whbr labels]|e]; [|now left].
  destruct (loop_entry _ (coloc_decision whbr labels)
              (fun ri st0 => colocalize_run whbr labels ri st0)
              (seq 0 chan_cnt) st i) as [H|H]; [now left|].
  right. exists whbr, labels. split; [reflexivity | exact H].
Qed.

End StepEntries.

Lemma first_some_offer (o : option string) (offers : list (option string)) :
  offer (first_some offers) (Some o) = Some (first_some (o :: offers)).
Proof. destruct o; reflexivity. Qed.

(** X1. When the whole-brain step has its map and its labels and no
    pair it treats has a raising label, the location of a pair is the
    first value offered, in this order, by [stein.region],
    [das.region], the co-localization of its two contacts,
    [mni.region] and [ind.region]; it is absent when none offers one. *)
Theorem resolution_order (rd : Reader) (pairs : DataFrame) (self : Locator)
    (whbr : gmap string pyval) (labels : list pyval) (i : nat) :
  load_pairs rd = Ok pairs ->
  init (Some rd) = Ok self ->
  step_inputs rd (df_len pairs) = Ok (whbr, labels) ->
  (forall j, j < df_len pairs ->
     candidate pairs "stein.region" j = None ->
     candidate pairs "das.region" j = None ->
     exists d, coloc_decision whbr labels j = Ok d) ->
  i < df_len pairs ->
  exists locs,
    locations self = Some locs /\
    locs !! i = Some (first_some [candidate pairs "stein.region" i;
                                  candidate pairs "das.region" i;
                                  stored (coloc_decision whbr labels i);
                                  candidate pairs "mni.region" i;
                                  candidate pairs "ind.region" i]).
Proof.
  intros Hp Hinit Hin Hok Hi.
  destruct (init_reader rd self Hinit) as (locs & HL & Hlocs).
  exists locs. split; [exact Hlocs|].
  destruct (LoadLocations_stages rd locs HL)
    as (pairs' & st1 & st2 & st3 & Hp' & H1 & H2 & L2 & H3 & H5 & _).
  rewrite Hp in Hp'. injection Hp' as <-. cbv zeta in *.
  assert (H3i : st3 !! i = offer (stored (coloc_decision whbr labels i)) (st2 !! i)).
  { rewrite H3. apply (whole_brain_step_lookup rd _ whbr labels st2 Hin L2).
    intros j Hj Hnone. rewrite H2, (H1 j Hj) in Hnone.
    destruct (candidate pairs "stein.region" j) eqn:Es; [discriminate|].
    simpl in Hnone. injection Hnone as Ed. now apply Hok. }
  rewrite H5, H3i, H2, (H1 i Hi).
  destruct (candidate pairs "stein.region" i); [reflexivity|].
  destruct (candidate pairs "das.region" i); [reflexivity|].
  destruct (stored (coloc_decision whbr labels i)); [reflexivity|].
  destruct (candidate pairs "mni.region" i); [reflexivity|].
  destruct (candidate pairs "ind.region" i); reflexivity.
Qed.

Lemma resolution_order_witness :
  exists locs,
    locations (built rd_chain) = Some locs /\
    locs !! 1 = Some (Some "Y").
Proof.
  destruct (resolution_order rd_chain
              (table 4 [column "label" [PyStr "A1-A2"; PyStr "B1-B2";
                                        PyStr "B2-C1"; PyStr "D1-D2"];
                        column "stein.region" [PyStr "CA1"; PyStr "unknown";
                                               PyNaN; PyNone];
                        column "mni.region" [PyStr "m0"; PyStr "m1";
                                             PyStr " m2 "; PyStr "nan"];
                        column "ind.region" [PyStr "i0"; PyStr "i1";
                                             PyStr "i2"; PyStr "i3"]])
              (built rd_chain)
              (list_to_map [("B1", PyStr "Y"); ("B2", PyStr "Y");
                            ("C1", PyStr "Z")])
              [PyStr "A1-A2"; PyStr "B1-B2"; PyStr "B2-C1"; PyStr "D1-D2"] 1)
    as (locs & Hlocs & H1).
  - reflexivity.
  - vm_compute. reflexivity.
  - vm_compute. reflexivity.
  - intros j Hj _ _.
    do 4 (destruct j as [|j]; [eexists; vm_compute; reflexivity|]).
    simpl in Hj. lia.
  - simpl. lia.
  - exists locs. split; [exact Hlocs|]. rewrite H1. vm_compute. reflexivity.
Defined.

(** The four pairs of the sample are resolved by four sources. *)
Example chain_ex :
  All (built rd_chain) = Ok [Some "CA1"; Some "Y"; Some "m2"; Some "i3"].
Proof. vm_compute. reflexivity. Qed.

(** X2. When the whole-brain step fails before its loop (the
    localization cannot be loaded or lacks the map, or the labels are
    missing or of another number), the location of a pair is the first
    value offered by [stein.region], [das.region], [mni.region] and
    [ind.region], in this order. *)
Theorem resolution_without_atlas (rd : Reader) (pairs : DataFrame)
    (self : Locator) (e : exn) (i : nat) :
  load_pairs rd = Ok pairs ->
  init (Some rd) = Ok self ->
  step_inputs rd (df_len pairs) = Raise e ->
  i < df_len pairs ->
  exists locs,
    locations self = Some locs /\
    locs !! i = Some (first_some [candidate pairs "stein.region" i;
                                  candidate pairs "das.region" i;
                                  candidate pairs "mni.region" i;
                                  candidate pairs "ind.region" i]).
Proof.
  intros Hp Hinit Hin Hi.
  destruct (init_reader rd self Hinit) as (locs & HL & Hlocs).
  exists locs. split; [exact Hlocs|].
  destruct (LoadLocations_stages rd locs HL)
    as (pairs' & st1 & st2 & st3 & Hp' & H1 & H2 & L2 & H3 & H5 & _).
  rewrite Hp in Hp'. injection Hp' as <-. cbv zeta in *.
  rewrite whole_brain_step_run, Hin in H3. simpl in H3. subst st3.
  rewrite H5, H2, (H1 i Hi).
  destruct (candidate pairs "stein.region" i); [reflexivity|].
  destruct (candidate pairs "das.region" i); [reflexivity|].
  destruct (candidate pairs "mni.region" i); [reflexivity|].
  destruct (candidate pairs "ind.region" i); reflexivity.
Qed.

Lemma resolution_without_atlas_witness :
  exists locs,
    locations (built rd_two) = Some locs /\
    locs !! 1 = Some (Some "insula").
Proof.
  destruct (resolution_without_atlas rd_two
              (table 2 [column "label" [PyStr "LA1-LA2"; PyStr "LB1-LB2"];
                        column "stein.region" [PyStr "CA1"; PyNone];
                        column "das.region" [PyStr "prc"; PyStr " insula "]])
              (built rd_two) LoadError 1) as (locs & Hlocs & H1).
  - reflexivity.
  - vm_compute. reflexivity.
  - reflexivity.
  - simpl. lia.
  - exists locs. split; [exact Hlocs|]. rewrite H1. vm_compute. reflexivity.
Defined.

(** X3. A location is never made up: the location of a pair is the
    accepted cell of that pair in one of the four columns, or the
    region the whole-brain map gives to the contacts of its label. *)
Theorem locations_from_sources (rd : Reader) (pairs : DataFrame)
    (self : Locator) (locs : list (option string)) (i : nat) (v : string) :
  load_pairs rd = Ok pairs ->
  init (Some rd) = Ok self ->
  locations self = Some locs ->
  locs !! i = Some (Some v) ->
  candidate pairs "stein.region" i = Some v \/
  candidate pairs "das.region" i = Some v \/
  (exists whbr labels,
     step_inputs rd (df_len pairs) = Ok (whbr, labels) /\
     coloc_decision whbr labels i = Ok (Some v)) \/
  candidate pairs "mni.region" i = Some v \/
  candidate pairs "ind.region" i = Some v.
Proof.
  intros Hp Hinit Hlocs Hv.
  destruct (init_reader rd self Hinit) as (locs' & HL & Hlocs').
  rewrite Hlocs in Hlocs'. injection Hlocs' as <-.
  destruct (LoadLocations_stages rd locs HL)
    as (pairs' & st1 & st2 & st3 & Hp' & H1 & H2 & L2 & H3 & H5 & _ & _ & _ & Hlen & _).
  rewrite Hp in Hp'. injection Hp' as <-. cbv zeta in *.
  assert (Hi : i < df_len pairs).
  { apply lookup_lt_Some in Hv. lia. }
  rewrite H5 in Hv. specialize (H2 i). rewrite (H1 i Hi) in H2.
  pose proof (whole_brain_step_entry rd (df_len pairs) st2 i) as H3i.
  rewrite <- H3 in H3i.
  destruct (candidate pairs "stein.region" i) as [vs|] eqn:Es.
  { simpl in H2. destruct H3i as [H3i|(whbr & labels & _ & H3i)];
      rewrite H3i, H2 in Hv; simpl in Hv; injection Hv as ->; now left. }
  simpl in H2.
  destruct (candidate pairs "das.region" i) as [vd|] eqn:Ed.
  { destruct H3i as [H3i|(whbr & labels & _ & H3i)];
      rewrite H3i, H2 in Hv; simpl in Hv; injection Hv as ->;
      right; now left. }
  destruct H3i as [H3i|(whbr & labels & Hin & H3i)];
    rewrite H3i, H2 in Hv; simpl in Hv.
  - destruct (candidate pairs "mni.region" i) as [vm|]; simpl in Hv;
      injection Hv as Hv; try subst; auto 8.
  - destruct (coloc_decision whbr labels i) as [[r|]|e] eqn:Ec; simpl in Hv.
    + injection Hv as ->. right. right. left. eauto.
    + destruct (candidate pairs "mni.region" i) as [vm|]; simpl in Hv;
        injection Hv as Hv; try subst; auto 8.
    + destruct (candidate pairs "mni.region" i) as [vm|]; simpl in Hv;
        injection Hv as Hv; try subst; auto 8.
Qed.

Lemma locations_from_sources_witness :
  candidate (table 4 [column "label" [PyStr "A1-A2"; PyStr "B1-B2";
                                      PyStr "B2-C1"; PyStr "D1-D2"];
                      column "stein.region" [PyStr "CA1"; PyStr "unknown";
                                             PyNaN; PyNone];
                      column "mni.region" [PyStr "m0"; PyStr "m1";
                                           PyStr " m2 "; PyStr "nan"];
                      column "ind.region" [PyStr "i0"; PyStr "i1";
                                           PyStr "i2"; PyStr "i3"]])
    "mni.region" 2 = Some "m2".
Proof.
  destruct (locations_from_sources rd_chain
              (table 4 [column "label" [PyStr "A1-A2"; PyStr "B1-B2";
                                        PyStr "B2-C1"; PyStr "D1-D2"];
                        column "stein.region" [PyStr "CA1"; PyStr "unknown";
                                               PyNaN; PyNone];
                        column "mni.region" [PyStr "m0"; PyStr "m1";
                                             PyStr " m2 "; PyStr "nan"];
                        column "ind.region" [PyStr "i0"; PyStr "i1";
                                             PyStr "i2"; PyStr "i3"]])
              (built rd_chain)
              [Some "CA1"; Some "Y"; Some "m2"; Some "i3"] 2 "m2")
    as [H|[H|[H|[H|H]]]].
  - reflexivity.
  - vm_compute. reflexivity.
  - vm_compute. reflexivity.
  - reflexivity.
  - vm_compute in H. discriminate.
  - vm_compute in H. discriminate.
  - destruct H as (whbr & labels & Hin & Hd).
    vm_compute in Hin. injection Hin as <- <-. vm_compute in Hd. discriminate.
  - exact H.
  - vm_compute in H. discriminate.
Defined.

(** ** Further properties: construction *)

Lemma UpdateLocations_column_total (pairs : DataFrame) (c : string)
    (st : list (option string)) :
  match df_columns pairs !! c with
  | Some col => df_len pairs <= length col
  | None => True
  end ->
  length st = df_len pairs ->
  exists st', UpdateLocations pairs (df_len pairs) c st = (Ok tt, st') /\
              length st' = df_len pairs.
Proof.
  intros Hcol Hlen.
  pose proof (UpdateLocations_keeps pairs (df_len pairs) c st) as [Hk _].
  assert (Hrun : exists st', UpdateLocations pairs (df_len pairs) c st = (Ok tt, st')).
  { destruct (df_columns pairs !! c) as [col|] eqn:E.
    - rewrite (UpdateLocations_loop pairs _ c col E).
      apply (loop_total _ (update_decision col)).
      + intros ri st0. apply update_rest_run.
      + intros j Hj. apply elem_of_seq in Hj. lia.
      + intros j Hj _. apply elem_of_seq in Hj. unfold update_decision.
        destruct (col !! j) as [v|] eqn:Ej; [eauto|].
        apply lookup_ge_None in Ej. lia.
    - unfold UpdateLocations. rewrite E. eauto. }
  destruct Hrun as [st' Hrun]. exists st'. split; [exact Hrun|].
  rewrite Hrun in Hk. simpl in Hk. lia.
Qed.

(** X4. Over a pairs table whose region columns have a cell for every
    row, construction raises exactly when the pairs cannot be loaded,
    and then with the exception of the load; nothing the localization
    holds, and no failure to load it, makes construction fail. *)
Theorem init_raises_iff (rd : Reader) (e : exn) :
  (forall pairs, load_pairs rd = Ok pairs -> covered pairs) ->
  (init (Some rd) = Raise e <-> load_pairs rd = Raise e).
Proof.
  intros Hcov. unfold init, LoadLocations.
  destruct (load_pairs rd) as [pairs|e0] eqn:Hp.
  - specialize (Hcov pairs eq_refl). unfold covered, region_columns in Hcov.
    apply Forall_cons in Hcov as [Hs Hcov].
    apply Forall_cons in Hcov as [Hd Hcov].
    apply Forall_cons in Hcov as [Hm Hcov].
    apply Forall_cons in Hcov as [Hi _].
    unfold resolve, bind, try_pass.
    destruct (UpdateLocations_column_total pairs "stein.region"
                (replicate (df_len pairs) None) Hs (length_replicate _ _))
      as (st1 & -> & L1).
    destruct (UpdateLocations_column_total pairs "das.region" st1 Hd L1)
      as (st2 & -> & L2).
    pose proof (whole_brain_step_keeps rd (df_len pairs) st2) as [L3 _].
    destruct (UpdateLocations_column_total pairs "mni.region"
                (snd (whole_brain_step rd (df_len pairs) st2)) Hm
                ltac:(lia)) as (st4 & -> & L4).
    destruct (UpdateLocations_column_total pairs "ind.region" st4 Hi L4)
      as (st5 & -> & L5).
    split; discriminate.
  - split; intros [= ->]; reflexivity.
Qed.

Lemma init_raises_iff_witness :
  init (Some rd_missing) = Raise LoadError /\
  ~ init (Some rd_two) = Raise LoadError.
Proof.
  split.
  - apply (init_raises_iff rd_missing LoadError).
    + intros pairs H. discriminate H.
    + reflexivity.
  - intros H. apply (init_raises_iff rd_two LoadError) in H.
    + discriminate H.
    + intros pairs [= <-]. vm_compute. repeat constructor.
Defined.

(** X5. Built with no reader, the instance has its alias lists and no
    locations: [All], [Matching], [Regions], [LeftRegions],
    [RightRegions] and every named accessor raise [AttributeError]. *)
Theorem taxonomy_only_queries (self : Locator) :
  init None = Ok self ->
  locations self = None /\
  All self = Raise AttributeError /\
  (forall regions, Matching self regions = Raise AttributeError) /\
  (forall regions, Regions self regions = Raise AttributeError) /\
  (forall regions, LeftRegions self regions = Raise AttributeError) /\
  (forall regions, RightRegions self regions = Raise AttributeError) /\
  Forall (fun query => query self = Raise AttributeError) accessors.
Proof.
  intros H. pose proof (init_None self H) as Hlocs.
  assert (HM : forall regions, Matching self regions = Raise AttributeError).
  { intros regions. unfold Matching, get_locations. now rewrite Hlocs. }
  assert (HR : forall regions, Regions self regions = Raise AttributeError).
  { intros [regions|]; [apply HM|].
    unfold Regions, get_locations. now rewrite Hlocs. }
  split; [exact Hlocs|]. split.
  { unfold All, get_locations. now rewrite Hlocs. }
  split; [exact HM|]. split; [exact HR|].
  split; [intros regions; apply HM|]. split; [intros regions; apply HM|].
  unfold accessors.
  repeat (apply Forall_cons; split; [first [apply HR | apply HM]|]).
  apply Forall_nil. exact I.
Qed.

Lemma taxonomy_only_queries_witness :
  Hippocampus taxonomy_only = Raise AttributeError /\
  length (hippocampus_regions taxonomy_only) = 15.
Proof.
  destruct (taxonomy_only_queries taxonomy_only eq_refl)
    as (_ & _ & _ & HR & _).
  split; [apply HR | reflexivity].
Defined.

(** The eight alias lists of an instance. *)
Lemma init_tables (rdr : option Reader) (self : Locator) :
  init rdr = Ok self ->
  hippocampus_regions self = hippocampus_regions taxonomy_only /\
  mtl_regions self = mtl_regions taxonomy_only /\
  ltc_regions self = ltc_regions taxonomy_only /\
  temporal_regions self = temporal_regions taxonomy_only /\
  pfc_regions self = pfc_regions taxonomy_only /\
  cingulate_regions self = cingulate_regions taxonomy_only /\
  parietal_regions self = parietal_regions taxonomy_only /\
  other_regions self = other_regions taxonomy_only.
Proof.
  unfold init. intros H.
  destruct rdr as [rd|]; [destruct (LoadLocations rd) as [locs|e]|];
    try discriminate; injection H as <-; repeat split; reflexivity.
Qed.

(** X6. The alias lists are the same in every instance, built with a
    reader or without, whatever the reader holds. *)
Theorem taxonomy_static (rdr1 rdr2 : option Reader) (self1 self2 : Locator) :
  init rdr1 = Ok self1 ->
  init rdr2 = Ok self2 ->
  hippocampus_regions self1 = hippocampus_regions self2 /\
  mtl_regions self1 = mtl_regions self2 /\
  ltc_regions self1 = ltc_regions self2 /\
  temporal_regions self1 = temporal_regions self2 /\
  pfc_regions self1 = pfc_regions self2 /\
  cingulate_regions self1 = cingulate_regions self2 /\
  parietal_regions self1 = parietal_regions self2 /\
  other_regions self1 = other_regions self2.
Proof.
  intros H1 H2.
  destruct (init_tables rdr1 self1 H1) as (-> & -> & -> & -> & -> & -> & -> & ->).
  destruct (init_tables rdr2 self2 H2) as (-> & -> & -> & -> & -> & -> & -> & ->).
  repeat split; reflexivity.
Qed.

Lemma taxonomy_static_witness :
  mtl_regions (built rd_chain) = mtl_regions taxonomy_only.
Proof.
  destruct (taxonomy_static (Some rd_chain) None (built rd_chain) taxonomy_only)
    as (_ & H & _).
  - vm_compute. reflexivity.
  - reflexivity.
  - exact H.
Defined.

(** ** Further properties: what co-localization does not do *)

(** X7. The whole-brain turn of a pair stores nothing and raises
    nothing when the first contact of the label is not in the map
    (whether or not the label has a second part), when the second is
    not, or when the two have regions that are not equal: a region is
    never taken from one contact alone. *)
Theorem colocalize_needs_both (whbr : gmap string pyval)
    (labels : list pyval) (ri : nat) (st : list (option string))
    (l a : string) (rest : list string) :
  labels !! ri = Some (PyStr l) ->
  split "-" l = a :: rest ->
  (whbr !! a = None \/
   exists b rest', rest = b :: rest' /\
     (whbr !! b = None \/
      exists r0 r1, whbr !! a = Some r0 /\ whbr !! b = Some r1 /\
                    py_eq r0 r1 = false)) ->
  colocalize whbr labels ri st = (Ok tt, st).
Proof.
  intros Hlabel Hsplit Hcase.
  unfold colocalize. rewrite bind_lift. unfold series_at. rewrite Hlabel.
  rewrite bind_lift. unfold label_split. rewrite Hsplit, bind_lift.
  unfold item. simpl. unfold has_key.
  destruct Hcase as [Ha|(b & rest' & -> & [Hb|(r0 & r1 & Ha & Hb & Hne)])].
  - now rewrite Ha.
  - destruct (whbr !! a); [|reflexivity].
    rewrite bind_lift. simpl. now rewrite Hb.
  - rewrite Ha, bind_lift. simpl. rewrite Hb.
    unfold getitem. rewrite Ha, Hb, !bind_lift. now rewrite Hne.
Qed.

Lemma colocalize_needs_both_witness :
  colocalize (list_to_map [("B2", PyStr "Y"); ("C1", PyStr "Z")])
    [PyStr "B2-C1"; PyStr "D1"] 0 [None; None] = (Ok tt, [None; None]) /\
  colocalize (list_to_map [("B2", PyStr "Y"); ("C1", PyStr "Z")])
    [PyStr "B2-C1"; PyStr "D1"] 1 [None; None] = (Ok tt, [None; None]).
Proof.
  split.
  - apply (colocalize_needs_both _ _ 0 _ "B2-C1" "B2" ["C1"]).
    + reflexivity.
    + reflexivity.
    + right. exists "C1", []. split; [reflexivity|]. right.
      exists (PyStr "Y"), (PyStr "Z").
      split; [vm_compute; reflexivity|].
      split; [vm_compute; reflexivity | reflexivity].
  - apply (colocalize_needs_both _ _ 1 _ "D1" "D1" []).
    + reflexivity.
    + reflexivity.
    + left. vm_compute. reflexivity.
Defined.

(** ** Further properties: the algebra of the masks *)

Lemma map_orb {A : Type} (f g : A -> bool) (l : list A) :
  map (fun x => f x || g x) l = zip_with orb (map f l) (map g l).
Proof. induction l as [|x l IH]; simpl; congruence. Qed.

Lemma str_in_app (x : string) (l1 l2 : list string) :
  str_in x (l1 ++ l2) = str_in x l1 || str_in x l2.
Proof. unfold str_in. apply existsb_app. Qed.

Lemma matches_app (l1 l2 : list string) (loc : option string) :
  matches (l1 ++ l2) loc = matches l1 loc || matches l2 loc.
Proof.
  destruct loc as [s|]; simpl; [|reflexivity].
  now rewrite map_app, str_in_app.
Qed.

(** The normal form of a string that starts with a character that is
    no white space starts with that character, lowered. *)
Lemma norm_head (c : ascii) (s : string) :
  isspace (lower_char c) = false ->
  exists t, norm (String c s) = String (lower_char c) t.
Proof.
  intros Hc. unfold norm, strip. simpl. rewrite Hc. simpl.
  destruct (rstrip (lower s)); [rewrite Hc|]; eauto.
Qed.

Section MaskAlgebra.

Variable self : Locator.
Variable locs : list (option string).
Hypothesis self_locations : locations self = Some locs.

Lemma Regions_holds (regions : regions_arg) (i : nat) :
  holds_at (Regions self (Some regions)) i <->
  exists s a, locs !! i = Some (Some s) /\ In a (as_list regions) /\
    (norm s = norm a \/ norm s = norm ("Left " ++ a)%string
     \/ norm s = norm ("Right " ++ a)%string).
Proof.
  rewrite Regions_Some, (Matching_holds self locs self_locations). simpl. split.
  - intros (s & a & Hs & Hin & Hn). exists s.
    rewrite !in_app_iff, !in_map_iff in Hin.
    destruct Hin as [Hin|[(x & <- & Hx)|(x & <- & Hx)]]; eauto 8.
  - intros (s & a & Hs & Hin & [Hn|[Hn|Hn]]).
    + exists s, a. rewrite !in_app_iff. auto.
    + exists s, ("Left " ++ a)%string. rewrite !in_app_iff, !in_map_iff.
      split; [exact Hs|]. split; [|exact Hn]. right. left. eauto.
    + exists s, ("Right " ++ a)%string. rewrite !in_app_iff, !in_map_iff.
      split; [exact Hs|]. split; [|exact Hn]. right. right. eauto.
Qed.

Lemma Regions_app_holds (l1 l2 : list string) (i : nat) :
  holds_at (Regions self (Some (StrList (l1 ++ l2)))) i <->
  holds_at (Regions self (Some (StrList l1))) i \/
  holds_at (Regions self (Some (StrList l2))) i.
Proof.
  rewrite !Regions_holds. simpl. split.
  - intros (s & a & Hs & Hin & Hn). apply in_app_iff in Hin.
    destruct Hin; [left | right]; eauto.
  - intros [(s & a & Hs & Hin & Hn)|(s & a & Hs & Hin & Hn)];
      exists s, a; rewrite in_app_iff; auto.
Qed.

(** Two alias lists with no normal form in common select no pair in
    common. *)
Lemma Matching_exclusive (l1 l2 : list string) (i : nat) :
  disjoint_aliases l1 l2 = true ->
  ~ (holds_at (Matching self (StrList l1)) i /\
     holds_at (Matching self (StrList l2)) i).
Proof.
  intros Hdis [H1 H2].
  apply (Matching_holds self locs self_locations) in H1, H2.
  destruct H1 as (s & a1 & Hs & Hin1 & Hn1).
  destruct H2 as (s' & a2 & Hs' & Hin2 & Hn2).
  rewrite Hs in Hs'. injection Hs' as <-.
  unfold disjoint_aliases in Hdis. cbv zeta in Hdis.
  rewrite forallb_forall in Hdis.
  specialize (Hdis (norm a1)). rewrite negb_true_iff, str_in_false in Hdis.
  apply Hdis.
  - apply in_map. exact Hin1.
  - rewrite <- Hn1, Hn2. apply in_map. exact Hin2.
Qed.

End MaskAlgebra.

(** X8. The mask of two alias lists put end to end is, pair by pair,
    the disjunction of the masks of the two lists. *)
Theorem Matching_union (self : Locator) (locs : list (option string))
    (l1 l2 : list string) :
  locations self = Some locs ->
  exists m1 m2,
    Matching self (StrList l1) = Ok m1 /\
    Matching self (StrList l2) = Ok m2 /\
    Matching self (StrList (l1 ++ l2)) = Ok (zip_with orb m1 m2).
Proof.
  intros Hlocs.
  exists (map (matches l1) locs), (map (matches l2) locs).
  rewrite !(Matching_run self locs Hlocs). simpl.
  split; [reflexivity|]. split; [reflexivity|].
  rewrite <- map_orb. f_equal. apply map_ext. intros loc. apply matches_app.
Qed.

Lemma Matching_union_witness :
  Matching (built rd_sides) (StrList ["hippocampus"; "left hippocampus"])
  = Ok [true; true; false; false; true].
Proof.
  destruct (Matching_union (built rd_sides)
              [Some "Left Hippocampus"; Some "Hippocampus";
               Some "Right Hippocampus"; None; Some "LEFT hippocampus"]
              ["hippocampus"] ["left hippocampus"]) as (m1 & m2 & H1 & H2 & H).
  - vm_compute. reflexivity.
  - simpl in H. rewrite H.
    vm_compute in H1. injection H1 as <-.
    vm_compute in H2. injection H2 as <-. reflexivity.
Defined.

(** X9. [Regions] is, pair by pair, the disjunction of [Matching],
    [LeftRegions] and [RightRegions] on the same aliases. *)
Theorem Regions_is_union (self : Locator) (locs : list (option string))
    (regions : regions_arg) :
  locations self = Some locs ->
  exists m ml mr,
    Matching self regions = Ok m /\
    LeftRegions self regions = Ok ml /\
    RightRegions self regions = Ok mr /\
    Regions self (Some regions) = Ok (zip_with orb m (zip_with orb ml mr)).
Proof.
  intros Hlocs.
  exists (map (matches (as_list regions)) locs),
         (map (matches (map (append "Left ") (as_list regions))) locs),
         (map (matches (map (append "Right ") (as_list regions))) locs).
  unfold LeftRegions, RightRegions.
  rewrite Regions_Some, !(Matching_run self locs Hlocs). simpl.
  split; [reflexivity|]. split; [reflexivity|]. split; [reflexivity|].
  rewrite <- !map_orb. f_equal. apply map_ext. intros loc.
  now rewrite !matches_app.
Qed.

Lemma Regions_is_union_witness :
  Regions (built rd_sides) (Some (OneStr "Hippocampus"))
  = Ok (zip_with orb [false; true; false; false; false]
          (zip_with orb [true; false; false; false; true]
                        [false; false; true; false; false])).
Proof.
  destruct (Regions_is_union (built rd_sides)
              [Some "Left Hippocampus"; Some "Hippocampus";
               Some "Right Hippocampus"; None; Some "LEFT hippocampus"]
              (OneStr "Hippocampus")) as (m & ml & mr & H1 & H2 & H3 & H).
  - vm_compute. reflexivity.
  - rewrite H.
    vm_compute in H1. injection H1 as <-.
    vm_compute in H2. injection H2 as <-.
    vm_compute in H3. injection H3 as <-. reflexivity.
Defined.

(** X10. No pair is in a [LeftRegions] mask and in a [RightRegions]
    mask, whatever the aliases of the two. *)
Theorem left_right_exclusive (self : Locator) (r1 r2 : regions_arg) (i : nat) :
  ~ (holds_at (LeftRegions self r1) i /\ holds_at (RightRegions self r2) i).
Proof.
  intros [HL HR]. unfold LeftRegions, RightRegions in *.
  destruct (locations self) as [locs|] eqn:Hlocs.
  - apply (Matching_holds self locs Hlocs) in HL, HR. simpl in HL, HR.
    destruct HL as (s & a1 & Hs & Hin1 & Hn1).
    destruct HR as (s' & a2 & Hs' & Hin2 & Hn2).
    rewrite Hs in Hs'. injection Hs' as <-.
    apply in_map_iff in Hin1, Hin2.
    destruct Hin1 as (x1 & <- & _). destruct Hin2 as (x2 & <- & _).
    destruct (norm_head "L" ("eft " ++ x1)%string eq_refl) as [t1 H1].
    destruct (norm_head "R" ("ight " ++ x2)%string eq_refl) as [t2 H2].
    change (norm ("Left " ++ x1)%string = String (lower_char "L") t1) in H1.
    change (norm ("Right " ++ x2)%string = String (lower_char "R") t2) in H2.
    rewrite H1 in Hn1. rewrite H2 in Hn2. rewrite Hn1 in Hn2. discriminate.
  - unfold Matching, get_locations in HL. rewrite Hlocs in HL. exact HL.
Qed.

Lemma left_right_exclusive_witness :
  holds_at (LeftRegions (built rd_sides) (OneStr "hippocampus")) 0 /\
  ~ holds_at (RightRegions (built rd_sides) (OneStr "hippocampus")) 0.
Proof.
  assert (HL : holds_at (LeftRegions (built rd_sides) (OneStr "hippocampus")) 0)
    by (vm_compute; reflexivity).
  split; [exact HL|]. intros HR.
  exact (left_right_exclusive (built rd_sides) (OneStr "hippocampus")
           (OneStr "hippocampus") 0 (conj HL HR)).
Defined.

(** X11. A mask depends on the aliases only through the set of their
    normal forms: their order, their repetitions, their case and their
    outer white space change nothing. *)
Theorem Matching_alias_set (self : Locator) (r1 r2 : regions_arg) :
  (forall x, In x (map norm (as_list r1)) <-> In x (map norm (as_list r2))) ->
  Matching self r1 = Matching self r2.
Proof.
  intros Hset. unfold Matching.
  destruct (get_locations self) as [locs|e]; [|reflexivity].
  f_equal. apply map_ext. intros [s|]; [|reflexivity].
  change (str_in (norm s) (map norm (as_list r1))
          = str_in (norm s) (map norm (as_list r2))).
  destruct (str_in (norm s) (map norm (as_list r2))) eqn:E.
  - apply str_in_In, Hset, str_in_In, E.
  - apply str_in_false. intros H. apply Hset, str_in_In in H. congruence.
Qed.

Lemma Matching_alias_set_witness :
  Matching (built rd_sides) (StrList ["Hippocampus"; " left hippocampus";
                                       "HIPPOCAMPUS"])
  = Matching (built rd_sides) (StrList ["Left Hippocampus "; "hippocampus"]).
Proof.
  apply Matching_alias_set. intros x. vm_compute. tauto.
Defined.

(** X12. An empty alias list selects no pair, in [Matching],
    [Regions], [LeftRegions] and [RightRegions] alike, where no list
    at all selects every pair in [Regions]. *)
Theorem empty_filter (self : Locator) (locs : list (option string)) :
  locations self = Some locs ->
  Matching self (StrList []) = Ok (replicate (length locs) false) /\
  Regions self (Some (StrList [])) = Ok (replicate (length locs) false) /\
  LeftRegions self (StrList []) = Ok (replicate (length locs) false) /\
  RightRegions self (StrList []) = Ok (replicate (length locs) false) /\
  Regions self None = Ok (replicate (length locs) true).
Proof.
  intros Hlocs.
  assert (H : Matching self (StrList []) = Ok (replicate (length locs) false)).
  { rewrite (Matching_run self locs Hlocs). f_equal. simpl.
    clear Hlocs. induction locs as [|[s|] l IH]; simpl; congruence. }
  split; [exact H|]. split; [exact H|]. split; [exact H|].
  split; [exact H|]. now apply Regions_None.
Qed.

Lemma empty_filter_witness :
  Regions (built rd_sides) (Some (StrList []))
    = Ok [false; false; false; false; false] /\
  Regions (built rd_sides) None = Ok [true; true; true; true; true].
Proof.
  destruct (empty_filter (built rd_sides)
              [Some "Left Hippocampus"; Some "Hippocampus";
               Some "Right Hippocampus"; None; Some "LEFT hippocampus"])
    as (_ & H1 & _ & _ & H2).
  - vm_compute. reflexivity.
  - split; [exact H1 | exact H2].
Defined.

(** X13. A pair with no location is in no mask computed from aliases,
    whatever the aliases, and in none of the named masks; it is in the
    mask of [Regions(None)]. *)
Theorem absent_pair (self : Locator) (locs : list (option string)) (i : nat) :
  locations self = Some locs ->
  locs !! i = Some None ->
  (forall regions, ~ holds_at (Matching self regions) i) /\
  (forall regions, ~ holds_at (Regions self (Some regions)) i) /\
  (forall regions, ~ holds_at (LeftRegions self regions) i) /\
  (forall regions, ~ holds_at (RightRegions self regions) i) /\
  Forall (fun query => ~ holds_at (query self) i) accessors /\
  holds_at (Regions self None) i.
Proof.
  intros Hlocs Hnone.
  assert (HM : forall regions, ~ holds_at (Matching self regions) i).
  { intros regions H. apply (Matching_holds self locs Hlocs) in H.
    destruct H as (s & a & Hs & _). congruence. }
  assert (HR : forall regions, ~ holds_at (Regions self (Some regions)) i).
  { intros regions. rewrite Regions_Some. apply HM. }
  split; [exact HM|]. split; [exact HR|].
  split; [intros regions; apply HM|]. split; [intros regions; apply HM|].
  split.
  - unfold accessors.
    repeat (apply Forall_cons; split; [first [apply HR | apply HM]|]).
    apply Forall_nil. exact I.
  - rewrite (Regions_None self locs Hlocs). simpl.
    apply lookup_replicate_2. now apply lookup_lt_Some in Hnone.
Qed.

Lemma absent_pair_witness :
  ~ holds_at (Temporal (built rd_sides)) 3 /\
  holds_at (Regions (built rd_sides) None) 3.
Proof.
  destruct (absent_pair (built rd_sides)
              [Some "Left Hippocampus"; Some "Hippocampus";
               Some "Right Hippocampus"; None; Some "LEFT hippocampus"] 3)
    as (_ & HR & _ & _ & _ & Hall).
  - vm_compute. reflexivity.
  - reflexivity.
  - split; [apply HR | exact Hall].
Defined.

(** Two alias lists whose three forms share no normal form give
    [Regions] masks with no pair in common. *)
Lemma Regions_exclusive (self : Locator) (l1 l2 : list string) (i : nat) :
  disjoint_aliases (bothsides l1) (bothsides l2) = true ->
  ~ (holds_at (Regions self (Some (StrList l1))) i /\
     holds_at (Regions self (Some (StrList l2))) i).
Proof.
  intros Hdis. destruct (locations self) as [locs|] eqn:Hlocs.
  - rewrite !Regions_Some. now apply (Matching_exclusive self locs Hlocs).
  - intros [H _]. unfold Regions, Matching, get_locations in H.
    rewrite Hlocs in H. exact H.
Qed.

(** X14. The five masks the class recommends together, [MTL], [LTC],
    [PFC], [Cingulate] and [Parietal], are exclusive: no pair is in
    two of them. *)
Theorem five_regions_exclusive (rdr : option Reader) (self : Locator)
    (i j k : nat) (q1 q2 : Locator -> result (list bool)) :
  init rdr = Ok self ->
  five_regions !! j = Some q1 ->
  five_regions !! k = Some q2 ->
  j <> k ->
  ~ (holds_at (q1 self) i /\ holds_at (q2 self) i).
Proof.
  intros Hinit Hj Hk Hne.
  destruct (init_tables rdr self Hinit)
    as (_ & Hm & Hl & _ & Hp & Hc & Hpa & _).
  unfold five_regions in Hj, Hk.
  destruct j as [|[|[|[|[|j]]]]]; simpl in Hj; try discriminate;
    injection Hj as <-;
    (destruct k as [|[|[|[|[|k]]]]]; simpl in Hk; try discriminate;
     injection Hk as <-);
    try congruence;
    unfold MTL, LTC, PFC, Cingulate, Parietal;
    rewrite ?Hm, ?Hl, ?Hp, ?Hc, ?Hpa;
    apply Regions_exclusive; vm_compute; reflexivity.
Qed.

Lemma five_regions_exclusive_witness :
  holds_at (MTL (built rd_two)) 0 /\ ~ holds_at (PFC (built rd_two)) 0.
Proof.
  assert (H : holds_at (MTL (built rd_two)) 0) by (vm_compute; reflexivity).
  split; [exact H|]. intros H'.
  apply (five_regions_exclusive (Some rd_two) (built rd_two) 0 0 2 MTL PFC).
  - vm_compute. reflexivity.
  - reflexivity.
  - reflexivity.
  - lia.
  - split; [exact H | exact H'].
Defined.

(** X15. [Temporal] is, pair by pair, the disjunction of [MTL], [LTC]
    and the mask of its three own aliases, and [MTL] that of
    [Hippocampus] and the mask of its sixteen own aliases. *)
Theorem Temporal_decomposition (rdr : option Reader) (self : Locator) (i : nat) :
  init rdr = Ok self ->
  (holds_at (Temporal self) i <->
   holds_at (MTL self) i \/ holds_at (LTC self) i \/
   holds_at (Regions self
               (Some (StrList ["fusiform gyrus wm"; "fusiform";
                               "transversetemporal"]))) i) /\
  (holds_at (MTL self) i <->
   holds_at (Hippocampus self) i \/
   holds_at (Regions self
               (Some (StrList
                  ["prc"; "ec"; "phc"; "mtl wm"; "amy"; "parahippocampal";
                   "entorhinal"; "temporalpole"; "amygdala";
                   "ent entorhinal area"; "hippocampus";
                   "phg parahippocampal gyrus"; "tmp temporal pole";
                   quoted "erc"; quoted "phc"; "erc"]))) i).
Proof.
  intros Hinit.
  destruct (init_tables rdr self Hinit) as (Hh & Hm & Hl & Ht & _).
  unfold Temporal, MTL, LTC, Hippocampus. rewrite Hh, Hm, Hl, Ht.
  destruct (locations self) as [locs|] eqn:Hlocs.
  - split.
    + change (temporal_regions taxonomy_only)
        with (mtl_regions taxonomy_only ++ ltc_regions taxonomy_only ++
              ["fusiform gyrus wm"; "fusiform"; "transversetemporal"]).
      now rewrite !(Regions_app_holds self locs Hlocs).
    + change (mtl_regions taxonomy_only)
        with (hippocampus_regions taxonomy_only ++
              ["prc"; "ec"; "phc"; "mtl wm"; "amy"; "parahippocampal";
               "entorhinal"; "temporalpole"; "amygdala";
               "ent entorhinal area"; "hippocampus";
               "phg parahippocampal gyrus"; "tmp temporal pole";
               quoted "erc"; quoted "phc"; "erc"]) at 1.
      now rewrite (Regions_app_holds self locs Hlocs).
  - unfold Regions, Matching, get_locations. rewrite Hlocs. simpl. tauto.
Qed.

Lemma Temporal_decomposition_witness :
  holds_at (Temporal (built rd_two)) 0 <->
  holds_at (MTL (built rd_two)) 0 \/ holds_at (LTC (built rd_two)) 0 \/
  holds_at (Regions (built rd_two)
              (Some (StrList ["fusiform gyrus wm"; "fusiform";
                              "transversetemporal"]))) 0.
Proof.
  destruct (Temporal_decomposition (Some rd_two) (built rd_two) 0) as [H _].
  - vm_compute. reflexivity.
  - exact H.
Defined.

(** X16. A pair is selected by its own location: for the string [s]
    that [All] gives for pair [i], [Matching(s)] and [Regions(s)] hold
    at [i], and so they do for every alias with the normal form of [s]. *)
Theorem All_Matching_roundtrip (self : Locator) (locs : list (option string))
    (i : nat) (s a : string) :
  All self = Ok locs ->
  locs !! i = Some (Some s) ->
  norm a = norm s ->
  holds_at (Matching self (OneStr a)) i /\
  holds_at (Regions self (Some (OneStr a))) i.
Proof.
  intros Hall Hs Hn.
  assert (Hlocs : locations self = Some locs).
  { unfold All, get_locations in Hall.
    destruct (locations self) as [locs'|]; [|discriminate].
    injection Hall as <-. now rewrite map_id. }
  split.
  - apply (Matching_holds self locs Hlocs). exists s, a. simpl. auto.
  - apply (Regions_holds self locs Hlocs). exists s, a. simpl. auto.
Qed.

Lemma All_Matching_roundtrip_witness :
  holds_at (Matching (built rd_chain) (OneStr " Ca1 ")) 0 /\
  holds_at (Regions (built rd_chain) (Some (OneStr " Ca1 "))) 0.
Proof.
  apply (All_Matching_roundtrip (built rd_chain)
           [Some "CA1"; Some "Y"; Some "m2"; Some "i3"] 0 "CA1" " Ca1 ").
  - vm_compute. reflexivity.
  - reflexivity.
  - reflexivity.
Defined.

(** ** Further properties: a source run again *)

Section LoopAgain.

Variable rest : nat -> Loc unit.
Variable decision : nat -> result (option string).

Hypothesis rest_run : forall ri st,
  st !! ri = Some None -> rest ri st = apply_turn ri (decision ri) st.

(** A loop that ended without exception, run again on the list it
    left, ends without exception and leaves the list as it is. *)
Lemma loop_again (l : list nat) (st st' : list (option string)) :
  for_each l (skip_set rest) st = (Ok tt, st') ->
  for_each l (skip_set rest) st' = (Ok tt, st').
Proof.
  revert st. induction l as [|x l IH]; intros st H; [reflexivity|].
  simpl in H. unfold bind in H.
  destruct (skip_set rest x st) as [[[]|e] st1] eqn:Hx; [|discriminate].
  pose proof (loop_keeps rest decision rest_run l st1) as Hk.
  rewrite H in Hk. simpl in Hk.
  assert (Hx' : skip_set rest x st' = (Ok tt, st')).
  { rewrite (skip_set_run rest decision rest_run) in Hx |- *.
    destruct (st' !! x) as [[v|]|] eqn:E'; [reflexivity| |].
    - pose proof (keeps_absent st1 st' x Hk E') as E1.
      destruct (st !! x) as [[v|]|] eqn:E.
      + injection Hx as <-. congruence.
      + unfold apply_turn in Hx |- *.
        destruct (decision x) as [[r|]|e]; [|reflexivity|discriminate].
        injection Hx as <-.
        rewrite list_lookup_insert_eq in E1; [discriminate|].
        now apply lookup_lt_Some in E.
      + discriminate.
    - exfalso. apply lookup_ge_None in E'. destruct Hk as [Hlen _].
      destruct (st !! x) as [[v|]|] eqn:E; [| |discriminate].
      + injection Hx as <-. apply lookup_lt_Some in E. lia.
      + apply lookup_lt_Some in E. unfold apply_turn in Hx.
        destruct (decision x) as [[r|]|e]; try discriminate;
          injection Hx as <-; rewrite ?length_insert in Hlen; lia. }
  simpl. unfold bind. rewrite Hx'. eapply IH, H.
Qed.

End LoopAgain.

(** X17. A column source that has run without exception changes
    nothing and raises nothing when it is run again on the list it
    left. *)
Theorem UpdateLocations_again (pairs : DataFrame) (chan_cnt : nat)
    (regionlabel : string) (st st' : list (option string)) :
  UpdateLocations pairs chan_cnt regionlabel st = (Ok tt, st') ->
  UpdateLocations pairs chan_cnt regionlabel st' = (Ok tt, st').
Proof.
  destruct (df_columns pairs !! regionlabel) as [col|] eqn:E.
  - rewrite (UpdateLocations_loop pairs chan_cnt regionlabel col E).
    apply (loop_again _ (update_decision col)).
    intros ri st0. apply update_rest_run.
  - unfold UpdateLocations. rewrite E. intros [= <-]. reflexivity.
Qed.

Lemma UpdateLocations_again_witness :
  UpdateLocations
    (table 2 [column "das.region" [PyStr "prc"; PyStr " insula "]])
    2 "das.region" [Some "CA1"; Some "insula"]
  = (Ok tt, [Some "CA1"; Some "insula"]).
Proof.
  apply (UpdateLocations_again _ 2 "das.region" [Some "CA1"; None]).
  vm_compute. reflexivity.
Defined.

(** ** Length and order *)

(** C8. A resolver built over a pairs table of [N] rows holds [N]
    locations, and the one at position [i] is that of the pair of row
    [i]: it is the first value offered by the cell of row [i] in
    [stein.region], the cell of row [i] in [das.region], the
    whole-brain turn on the label of row [i] if the step reached it,
    the cell of row [i] in [mni.region] and the cell of row [i] in
    [ind.region].  [All] returns these locations in this order;
    [Matching], [Regions], [LeftRegions], [RightRegions] and each named
    accessor return [N] booleans, the one at position [i] telling
    whether the location at position [i] matches the aliases of the
    query, and [Regions(None)] returns [N] times [True]. *)
Theorem length_and_order (rd : Reader) (pairs : DataFrame) (self : Locator) :
  load_pairs rd = Ok pairs ->
  init (Some rd) = Ok self ->
  exists locs,
    locations self = Some locs /\
    length locs = df_len pairs /\
    (forall i, i < df_len pairs ->
       exists w,
         (w = None \/
          exists whbr labels,
            step_inputs rd (df_len pairs) = Ok (whbr, labels) /\
            w = stored (coloc_decision whbr labels i)) /\
         locs !! i = Some (first_some [candidate pairs "stein.region" i;
                                       candidate pairs "das.region" i;
                                       w;
                                       candidate pairs "mni.region" i;
                                       candidate pairs "ind.region" i])) /\
    All self = Ok locs /\
    (forall regions,
       mask_is (df_len pairs) locs (as_list regions)
         (Matching self regions)) /\
    (forall regions,
       mask_is (df_len pairs) locs (bothsides (as_list regions))
         (Regions self (Some regions))) /\
    Regions self None = Ok (replicate (df_len pairs) true) /\
    (forall regions,
       mask_is (df_len pairs) locs (map (append "Left ") (as_list regions))
         (LeftRegions self regions)) /\
    (forall regions,
       mask_is (df_len pairs) locs (map (append "Right ") (as_list regions))
         (RightRegions self regions)) /\
    Forall (fun qa : (Locator -> result (list bool)) * (Locator -> list string) =>
              mask_is (df_len pairs) locs (snd qa self) (fst qa self))
      accessor_aliases.
Proof.
  intros Hp Hinit.
  destruct (init_reader rd self Hinit) as (locs & HL & Hlocs).
  destruct (LoadLocations_stages rd locs HL)
    as (pairs' & st1 & st2 & st3 & Hp' & H1 & H2 & L2 & H3 & H5
        & _ & _ & _ & Hlen & _).
  rewrite Hp in Hp'. injection Hp' as <-. cbv zeta in *.
  exists locs. split; [exact Hlocs|]. split; [exact Hlen|]. split.
  { intros i Hi.
    pose proof (whole_brain_step_entry rd (df_len pairs) st2 i) as H3i.
    rewrite <- H3 in H3i.
    assert (Hw : exists w,
               (w = None \/
                exists whbr labels,
                  step_inputs rd (df_len pairs) = Ok (whbr, labels) /\
                  w = stored (coloc_decision whbr labels i)) /\
               st3 !! i = offer w (st2 !! i)).
    { destruct H3i as [H3i|(whbr & labels & Hin & H3i)].
      - exists None. split; [now left|]. rewrite H3i.
        now destruct (st2 !! i) as [[v|]|].
      - exists (stored (coloc_decision whbr labels i)).
        split; [right; eauto | exact H3i]. }
    destruct Hw as (w & Hw & H3w). exists w. split; [exact Hw|].
    rewrite H5, H3w, H2, (H1 i Hi).
    destruct (candidate pairs "stein.region" i); [reflexivity|].
    destruct (candidate pairs "das.region" i); [reflexivity|].
    destruct w; [reflexivity|].
    destruct (candidate pairs "mni.region" i); [reflexivity|].
    destruct (candidate pairs "ind.region" i); reflexivity. }
  rewrite <- Hlen. split.
  { unfold All, get_locations. rewrite Hlocs. now rewrite map_id. }
  split; [intros regions; now apply Matching_is|].
  split; [intros regions; exact (Matching_is self locs Hlocs (StrList _))|].
  split; [now apply Regions_None|].
  split; [intros regions; exact (Matching_is self locs Hlocs (StrList _))|].
  split; [intros regions; exact (Matching_is self locs Hlocs (StrList _))|].
  unfold accessor_aliases.
  repeat (apply Forall_cons; split;
          [exact (Matching_is self locs Hlocs (StrList _))|]).
  apply Forall_nil. exact I.
Qed.

(** The two pairs of the sample are located in the order of their
    rows, and the masks follow that order. *)
Lemma length_and_order_witness :
  exists locs,
    locations (built rd_two) = Some locs /\ length locs = 2 /\
    locs !! 0 = Some (Some "CA1") /\ locs !! 1 = Some (Some "insula") /\
    All (built rd_two) = Ok locs /\
    exists m, Matching (built rd_two) (OneStr "Insula") = Ok m /\
              m !! 0 = Some false /\ m !! 1 = Some true.
Proof.
  destruct (length_and_order rd_two
              (table 2 [column "label" [PyStr "LA1-LA2"; PyStr "LB1-LB2"];
                        column "stein.region" [PyStr "CA1"; PyNone];
                        column "das.region" [PyStr "prc"; PyStr " insula "]])
              (built rd_two))
    as (locs & Hlocs & Hlen & Hrow & Hall & HM & _).
  - reflexivity.
  - vm_compute. reflexivity.
  - destruct (Hrow 0 ltac:(simpl; lia)) as (w0 & _ & H0).
    destruct (Hrow 1 ltac:(simpl; lia)) as (w1 & _ & H1).
    assert (E0 : locs !! 0 = Some (Some "CA1")) by (rewrite H0; reflexivity).
    assert (E1 : locs !! 1 = Some (Some "insula")) by (rewrite H1; reflexivity).
    destruct (HM (OneStr "Insula")) as (m & Hm & _ & Hi).
    exists locs. split; [exact Hlocs|]. split; [exact Hlen|].
    split; [exact E0|]. split; [exact E1|]. split; [exact Hall|].
    exists m. split; [exact Hm|].
    split; [now rewrite Hi, E0 | now rewrite Hi, E1].
Defined.
